(** * Pinterest board harvester and ZIP packaging service

    A shallow embedding of two services of the repository:

    - [PinterestScraperService] (the scroll/extract loop [collectImages] and
      the in-page extraction [extractImagesFromPage]);
    - [ZipService] in [backend/src/services/zipService.ts]
      ([createZipArchive], [generateZip], [getDownloadStream],
      [cleanupTask], [sanitizeFilename], [getFileExtension]).

    JavaScript strings are sequences of UTF-16 code units and are modelled as
    [list N]; [lit] turns an ASCII literal into such a sequence.  Maps and
    sets of the services are stdpp's [gmap] and [gset]. *)

From Stdlib Require Import ZArith NArith Lia List Ascii String Permutation.
From stdpp Require Import gmap list.

Local Open Scope Z_scope.

(** ** JavaScript strings *)

Module JS.

Abbreviation jsstring := (list N).

Definition lit (s : string) : jsstring :=
  List.map N_of_ascii (list_ascii_of_string s).

(** [s.startsWith(p)] *)
Fixpoint startsWith (p s : jsstring) : bool :=
  match p, s with
  | [], _ => true
  | _ :: _, [] => false
  | a :: p', b :: s' => N.eqb a b && startsWith p' s'
  end.

(** [s.includes(p)] *)
Fixpoint includes (p s : jsstring) : bool :=
  startsWith p s ||
  match s with
  | [] => false
  | _ :: s' => includes p s'
  end.

(** [s.replace(pat, rep)] with a string pattern: first occurrence only. *)
Fixpoint replaceFirst (pat rep s : jsstring) : jsstring :=
  if startsWith pat s then rep ++ List.skipn (List.length pat) s
  else match s with
       | [] => []
       | c :: s' => c :: replaceFirst pat rep s'
       end.

Fixpoint dropWhile (f : N -> bool) (s : jsstring) : jsstring :=
  match s with
  | [] => []
  | c :: s' => if f c then dropWhile f s' else s
  end.

Definition slash : N := 47.
Definition dot : N := 46.

(** [s.replace(/TOK[^\/]*/, rep)]: the leftmost occurrence of [tok] together
    with the longest run of non-slash code units after it. *)
Fixpoint replaceTokenRun (tok rep s : jsstring) : jsstring :=
  if startsWith tok s
  then rep ++ dropWhile (fun c => negb (N.eqb c slash)) (List.skipn (List.length tok) s)
  else match s with
       | [] => []
       | c :: s' => c :: replaceTokenRun tok rep s'
       end.

(** The class [\s] of ECMAScript regular expressions (white space and line
    terminators), which is also what [trim] strips. *)
Definition isSpace (c : N) : bool :=
  ((9 <=? c) && (c <=? 13) || (c =? 32) || (c =? 160) || (c =? 5760)
   || ((8192 <=? c) && (c <=? 8202)) || (c =? 8232) || (c =? 8233)
   || (c =? 8239) || (c =? 8287) || (c =? 12288) || (c =? 65279))%N.

(** [s.trim()] *)
Definition trim (s : jsstring) : jsstring :=
  List.rev (dropWhile isSpace (List.rev (dropWhile isSpace s))).

Fixpoint takeWhile (f : N -> bool) (s : jsstring) : jsstring :=
  match s with
  | [] => []
  | c :: s' => if f c then c :: takeWhile f s' else []
  end.

(** [s.substring(0, n)] *)
Definition substring0 (n : nat) (s : jsstring) : jsstring := List.firstn n s.

(** Decimal digits of a non-negative integer, most significant first: the
    string that a template literal produces for it.  [fuel] bounds the number
    of digits produced. *)
Fixpoint digitsAux (fuel : nat) (n : N) (acc : jsstring) : jsstring :=
  match fuel with
  | O => acc
  | Datatypes.S fuel' =>
    let acc' := (48 + n mod 10)%N :: acc in
    if (n <? 10)%N then acc' else digitsAux fuel' (n / 10)%N acc'
  end.

(** A number has no more decimal digits than binary ones. *)
Definition decimal (n : N) : jsstring :=
  digitsAux (Datatypes.S (N.to_nat (N.log2 n))) n [].

(** The number that a string of decimal digits denotes, after the digits
    already read as [start]. *)
Definition valueOf (start : N) (s : jsstring) : N :=
  fold_left (fun v d => (10 * v + (d - 48))%N) s start.

Definition isDigit (c : N) : Prop := (48 <= c <= 57)%N.

(** Truthiness of a string: only the empty string is falsy. *)
Definition truthy (s : jsstring) : bool :=
  match s with [] => false | _ => true end.

(** [a || b] on strings. *)
Definition orElse (a b : jsstring) : jsstring := if truthy a then a else b.

End JS.

Import JS.

(** ** Shared data types *)

(** [PinImage] of [sharedTypes]. *)
Record PinImage := mkPinImage {
  id : jsstring;
  url : jsstring;
  thumbnail : jsstring;
  title : jsstring;
  source : jsstring
}.

(** ** The scraper: [PinterestScraperService] *)

Module Scraper.

(** What the in-page script of [extractImagesFromPage] can see of one
    [div[data-test-id="pinWrapper"]] element. *)
Record ImgElement := mkImg {
  img_src : jsstring;               (* imgElement.src *)
  img_data_src : option jsstring    (* imgElement.getAttribute('data-src') *)
}.

Record PinWrapper := mkWrapper {
  w_img : option ImgElement;        (* wrapper.querySelector('img') *)
  w_titleText : option jsstring     (* textContent of div[data-test-id="pinTitle"] *)
}.

(** [imgElement.src || imgElement.getAttribute('data-src')], [None] when the
    result is falsy. *)
Definition wrapperSrc (im : ImgElement) : option jsstring :=
  if truthy (img_src im) then Some (img_src im)
  else match img_data_src im with
       | Some d => if truthy d then Some d else None
       | None => None
       end.

(** Convert to high resolution URL. *)
Definition highResUrl (src : jsstring) : jsstring :=
  if includes (lit "236x") src then replaceTokenRun (lit "236x") (lit "originals") src
  else if includes (lit "474x") src then replaceTokenRun (lit "474x") (lit "originals") src
  else src.

(** The wrappers are selected by [div[data-test-id="pinWrapper"]], so the
    attribute read back is exactly that literal; removing ['pinWrapper-']
    from it leaves a truthy string and the [btoa] alternative is not
    evaluated. *)
Definition pinId : jsstring :=
  replaceFirst (lit "pinWrapper-") [] (lit "pinWrapper").

Definition pinTitle (w : PinWrapper) : jsstring :=
  match w_titleText w with
  | Some t => orElse (trim t) (lit "Pinterest Image")
  | None => lit "Pinterest Image"
  end.

(** Body of the [forEach] over the wrappers: [None] when the pin is skipped. *)
Definition extractPin (href : jsstring) (w : PinWrapper) : option PinImage :=
  match w_img w with
  | None => None
  | Some im =>
    match wrapperSrc im with
    | None => None
    | Some src =>
      Some {| id := pinId; url := highResUrl src; thumbnail := src;
              title := pinTitle w; source := href |}
    end
  end.

(** [extractImagesFromPage], given the wrappers and [window.location.href]
    of the current view. *)
Definition extractImages (href : jsstring) (ws : list PinWrapper) : list PinImage :=
  omap (extractPin href) ws.

(** *** Progress registry *)

Inductive ScrapeStatus := Initializing | Loading | Scrolling | Completed | Failed.

Inductive ScrapeMessage :=
| MsgNone
| MsgInitializing
| MsgLoading
| MsgCollecting
| MsgFound (n : nat)             (* `Found ${images.length} images...` *)
| MsgCollected (n : nat)         (* `Successfully collected ${images.length} images` *)
| MsgError (e : jsstring).

Record ScrapingProgress := mkScrapingProgress {
  currentImages : nat;
  totalImages : nat;
  status : ScrapeStatus;
  message : ScrapeMessage
}.

(** [Partial<ScrapingProgress>] *)
Record ProgressUpdate := mkUpdate {
  u_currentImages : option nat;
  u_totalImages : option nat;
  u_status : option ScrapeStatus;
  u_message : option ScrapeMessage
}.

Definition emptyProgress : ScrapingProgress :=
  {| currentImages := 0; totalImages := 0; status := Initializing; message := MsgNone |}.

(** [{ ...currentProgress, ...updates }] *)
Definition mergeProgress (p : ScrapingProgress) (u : ProgressUpdate) : ScrapingProgress :=
  {| currentImages := default (currentImages p) (u_currentImages u);
     totalImages := default (totalImages p) (u_totalImages u);
     status := default (status p) (u_status u);
     message := default (message p) (u_message u) |}.

(** The service state that [collectImages] touches: the task registry and
    the snapshots handed to the [onProgress] callback, oldest first. *)
Record Registry := mkRegistry {
  scrapingTasks : gmap jsstring ScrapingProgress;
  notified : list ScrapingProgress
}.

Definition updateProgress (taskId : jsstring) (u : ProgressUpdate) (r : Registry) : Registry :=
  {| scrapingTasks :=
       <[taskId := mergeProgress (default emptyProgress (scrapingTasks r !! taskId)) u]>
         (scrapingTasks r);
     notified := notified r |}.

(** [onProgress?.(this.scrapingTasks.get(taskId)!)] *)
Definition notify (hasCallback : bool) (taskId : jsstring) (r : Registry) : Registry :=
  if hasCallback
  then match scrapingTasks r !! taskId with
       | Some p => {| scrapingTasks := scrapingTasks r; notified := notified r ++ [p] |}
       | None => r
       end
  else r.

(** *** The page capability

    A scripted page: a state of type [S] and the effect of each call the loop
    makes on it.  Every call returns (driver failures abort [scrapeBoard] and
    are outside this model). *)
Record Page (S : Type) := mkPage {
  (* the wrappers and location seen by the script of extractImagesFromPage *)
  evalExtract : S -> (list PinWrapper * jsstring) * S;
  (* page.evaluate(() => document.body.scrollHeight) *)
  evalScrollHeight : S -> Z * S;
  (* page.evaluate(() => window.scrollTo(0, document.body.scrollHeight)) *)
  evalScrollToBottom : S -> S;
  (* page.waitForTimeout(2000) *)
  waitForTimeout : S -> S;
  (* the "Load more" script: true when a matching button was clicked *)
  evalLoadMore : S -> bool * S
}.

Arguments evalExtract {S}.
Arguments evalScrollHeight {S}.
Arguments evalScrollToBottom {S}.
Arguments waitForTimeout {S}.
Arguments evalLoadMore {S}.

Definition maxScrollAttempts : nat := 50.

(** The local variables of [collectImages]. *)
Record Locals := mkLocals {
  images : list PinImage;
  seenUrls : gset jsstring;
  previousHeight : Z;
  scrollAttempts : nat
}.

Definition initLocals : Locals :=
  {| images := []; seenUrls := ∅; previousHeight := 0; scrollAttempts := 0 |}.

(** Add only unique images. *)
Fixpoint addUnique (newImages : list PinImage) (imgs : list PinImage) (seen : gset jsstring)
  : list PinImage * gset jsstring :=
  match newImages with
  | [] => (imgs, seen)
  | image :: rest =>
    if bool_decide (url image ∈ seen)
    then addUnique rest imgs seen
    else addUnique rest (imgs ++ [image]) ({[url image]} ∪ seen)
  end.

Section Loop.

Context {S : Type} (page : Page S).
Variable taskId : jsstring.
Variable hasCallback : bool.

(** The state between two statements of the loop. *)
Record Config := mkConfig {
  locals : Locals;
  pageState : S;
  registry : Registry
}.

Inductive Step :=
| Continue (c : Config)      (* end of the loop body: back to the test *)
| Break (c : Config).        (* `break` *)

(** First half of the loop body: extract the images of the current view,
    add the unique ones and update the progress.  Returns the new [images]
    and [seenUrls], the registry and the page state. *)
Definition harvestView (c : Config)
  : list PinImage * gset jsstring * Registry * S :=
  let l := locals c in
  (* Extract images from current view *)
  let '((ws, href), s1) := evalExtract page (pageState c) in
  let newImages := extractImages href ws in
  let '(imgs, seen) := addUnique newImages (images l) (seenUrls l) in
  (* Update progress *)
  let r0 := registry c in
  let total0 := match scrapingTasks r0 !! taskId with
                | Some p => totalImages p
                | None => 0%nat
                end in
  let r1 := updateProgress taskId
              {| u_currentImages := Some (List.length imgs);
                 u_totalImages := Some (Nat.max (List.length imgs) total0);
                 u_status := None;
                 u_message := Some (MsgFound (List.length imgs)) |} r0 in
  (imgs, seen, notify hasCallback taskId r1, s1).

(** Scroll down and measure: the scroll height before the scroll, the one
    after the wait, and the page state. *)
Definition scrollAndMeasure (s1 : S) : Z * Z * S :=
  let '(prev, s2) := evalScrollHeight page s1 in
  let s3 := evalScrollToBottom page s2 in
  (* Wait for new content to load *)
  let s4 := waitForTimeout page s3 in
  let '(cur, s5) := evalScrollHeight page s4 in
  (prev, cur, s5).

(** One execution of the body of the [while] loop. *)
Definition loopBody (c : Config) : Step :=
  let '(imgs, seen, r2, s1) := harvestView c in
  let '(prev, cur, s5) := scrollAndMeasure s1 in
  (* Check if we've reached the bottom *)
  if Z.eqb cur prev then
    let attempts := Datatypes.S (scrollAttempts (locals c)) in
    (* Try clicking "Load more" buttons if they exist *)
    let '(loadMoreClicked, s6) := evalLoadMore page s5 in
    let c' := {| locals := {| images := imgs; seenUrls := seen;
                              previousHeight := prev; scrollAttempts := attempts |};
                 pageState := s6; registry := r2 |} in
    if loadMoreClicked then Continue c' else Break c'   (* No more content to load *)
  else
    (* Reset counter if content loaded *)
    Continue {| locals := {| images := imgs; seenUrls := seen;
                             previousHeight := prev; scrollAttempts := 0 |};
                pageState := s5; registry := r2 |}.

Inductive Outcome :=
| Returned (c : Config)       (* the loop was left; `return images` *)
| StillLooping (c : Config).  (* the iteration budget ran out in this state *)

Definition outcomeConfig (o : Outcome) : Config :=
  match o with Returned c | StillLooping c => c end.

(** [while (scrollAttempts < maxScrollAttempts) { ... }], run for at most
    [fuel] iterations. *)
Fixpoint whileLoop (fuel : nat) (c : Config) : Outcome :=
  if Nat.ltb (scrollAttempts (locals c)) maxScrollAttempts then
    match fuel with
    | O => StillLooping c
    | Datatypes.S fuel' =>
      match loopBody c with
      | Break c' => Returned c'
      | Continue c' => whileLoop fuel' c'
      end
    end
  else Returned c.

(** [collectImages], run for at most [fuel] iterations of its loop. *)
Definition collectImages (fuel : nat) (s : S) (r : Registry) : Outcome :=
  let r1 := updateProgress taskId
              {| u_currentImages := None; u_totalImages := None;
                 u_status := Some Scrolling; u_message := Some MsgCollecting |} r in
  let r2 := notify hasCallback taskId r1 in
  whileLoop fuel {| locals := initLocals; pageState := s; registry := r2 |}.

(** The part of [scrapeBoard] that follows a return of [collectImages]. *)
Definition finishScrape (c : Config) : Registry :=
  let n := List.length (images (locals c)) in
  notify hasCallback taskId
    (updateProgress taskId
       {| u_currentImages := Some n; u_totalImages := Some n;
          u_status := Some Completed; u_message := Some (MsgCollected n) |}
       (registry c)).

End Loop.

Arguments Config : clear implicits.
Arguments Step : clear implicits.
Arguments Outcome : clear implicits.
Arguments Continue {S}.
Arguments Break {S}.
Arguments Returned {S}.
Arguments StillLooping {S}.
Arguments mkConfig {S}.
Arguments locals {S}.
Arguments pageState {S}.
Arguments registry {S}.
Arguments outcomeConfig {S}.

(** *** Two scripted pages *)

(** A page without pins whose state is its scroll height, and whose height
    grows by 1000 every time the loop scrolls to the bottom. *)
Definition growingPage : Page Z :=
  {| evalExtract := fun h => (([], lit "https://www.pinterest.com/u/b/"), h);
     evalScrollHeight := fun h => (h, h);
     evalScrollToBottom := fun h => h + 1000;
     waitForTimeout := fun h => h;
     evalLoadMore := fun h => (false, h) |}.

(** A page of constant height 1000 that shows one pin and always offers a
    "Load more" button, which never brings new content. *)
Definition stallingPage : Page unit :=
  {| evalExtract := fun s =>
       (([ {| w_img := Some {| img_src := lit "https://i.pinimg.com/236x/ab/cd/pin.jpg";
                               img_data_src := None |};
              w_titleText := None |} ], lit "https://www.pinterest.com/u/b/"), s);
     evalScrollHeight := fun s => (1000, s);
     evalScrollToBottom := fun s => s;
     waitForTimeout := fun s => s;
     evalLoadMore := fun s => (true, s) |}.

Definition emptyRegistry : Registry := {| scrapingTasks := ∅; notified := [] |}.

Definition firstConfig : Config unit :=
  mkConfig initLocals tt emptyRegistry.

(** *** Properties of a collection *)

(** The [url] of an image is the high-resolution form of the source it was
    found under. *)
Definition canonical (im : PinImage) : Prop := url im = highResUrl (thumbnail im).

(** What [images] and [seenUrls] satisfy throughout the loop. *)
Record Inv (imgs : list PinImage) (seen : gset jsstring) : Prop := {
  inv_nodup : NoDup (url <$> imgs);
  inv_seen : ∀ u, u ∈ seen ↔ u ∈ url <$> imgs;
  inv_canonical : Forall canonical imgs
}.

End Scraper.

(** ** The packaging service: [ZipService] *)

Module Zip.

(** *** File names *)

Definition isHostile (c : N) : bool :=
  ((c <=? 31) || (c =? 60) || (c =? 62) || (c =? 58) || (c =? 34) || (c =? 47)
   || (c =? 92) || (c =? 124) || (c =? 63) || (c =? 42))%N.

Definition underscore : N := 95.
Definition hyphen : N := 45.

(** [.replace(/\s+/g, '-')]: every maximal run of white space becomes one
    hyphen; [inRun] tells that the previous code unit was white space. *)
Fixpoint collapseSpaces (inRun : bool) (s : jsstring) : jsstring :=
  match s with
  | [] => []
  | c :: s' =>
    if isSpace c
    then if inRun then collapseSpaces true s' else hyphen :: collapseSpaces true s'
    else c :: collapseSpaces false s'
  end.

(** Sanitize filename to prevent filesystem issues. *)
Definition sanitizeFilename (filename : jsstring) : jsstring :=
  let s1 := List.map (fun c => if isHostile c then underscore else c) filename in
  let s2 := dropWhile (fun c => N.eqb c dot) s1 in
  let s3 := collapseSpaces false s2 in
  substring0 100 s3.

Definition isAlnum (c : N) : bool :=
  ((48 <=? c) && (c <=? 57) || (65 <=? c) && (c <=? 90) || (97 <=? c) && (c <=? 122))%N.

Definition toLower (c : N) : N :=
  if ((65 <=? c) && (c <=? 90))%N then (c + 32)%N else c.

(** Extract file extension from URL: the leftmost match of
    [/\.([a-zA-Z0-9]+)(?:[#?]|$)/].  A run of alphanumerics after a dot can
    only be followed by the terminator when it is the longest such run. *)
Fixpoint getFileExtension (url : jsstring) : option jsstring :=
  match url with
  | [] => None
  | c :: rest =>
    if N.eqb c dot then
      let run := takeWhile isAlnum rest in
      let after := dropWhile isAlnum rest in
      let terminated := match after with
                        | [] => true
                        | d :: _ => (d =? 35)%N || (d =? 63)%N
                        end in
      if truthy run && terminated then Some (List.map toLower run)
      else getFileExtension rest
    else getFileExtension rest
  end.

(** The name given to the entry of a retrieved image:
    [sanitizeFilename(`${image.title || `image-${index + 1}`}.${extension}`)]. *)
Definition entryFilename (image : PinImage) (index : nat) : jsstring :=
  let extension := default (lit "jpg") (getFileExtension (url image)) in
  sanitizeFilename
    (orElse (title image) (lit "image-" ++ decimal (N.of_nat (index + 1)))
       ++ [dot] ++ extension).

(** [`failed-${index + 1}.txt`] *)
Definition placeholderName (index : nat) : jsstring :=
  lit "failed-" ++ decimal (N.of_nat (index + 1)) ++ lit ".txt".

(** *** Archive, tasks and progress *)

Inductive EntryData :=
| Streamed (body : list N)        (* response.data of a retrieved image *)
| Buffered (text : jsstring).     (* Buffer.from(text) *)

Record Entry := mkEntry { entry_name : jsstring; entry_data : EntryData }.

Definition placeholderEntry (image : PinImage) (index : nat) : Entry :=
  {| entry_name := placeholderName index;
     entry_data := Buffered (lit "Download failed for: " ++ url image) |}.

Inductive ZipStatus := Pending | Downloading | Compressing | Completed | Failed.

Inductive ZipMessage :=
| MsgNone
| MsgPreparing                           (* 'Preparing download...' *)
| MsgDownloading (k total : nat)         (* `Downloading image ${index + 1}/${totalCount}...` *)
| MsgCompressing (d total : nat)         (* `Compressing files... (${downloadedCount}/${totalCount})` *)
| MsgCreated                             (* `ZIP created successfully (... bytes)` *)
| MsgCreationFailed (e : jsstring).      (* `ZIP creation failed: ${err.message}` *)

Record ZipProgress := mkZipProgress {
  taskId : jsstring;
  progress : Z;
  status : ZipStatus;
  message : ZipMessage;
  downloadedCount : nat;
  totalCount : nat
}.

(** [Partial<ZipProgress>] as the call sites of [updateProgress] use it. *)
Record ZipUpdate := mkZipUpdate {
  u_progress : option Z;
  u_status : option ZipStatus;
  u_message : option ZipMessage;
  u_downloadedCount : option nat;
  u_totalCount : option nat
}.

Record ZipTask := mkZipTask {
  t_taskId : jsstring;
  boardId : jsstring;
  imageIds : list jsstring;
  images : list PinImage;
  outputPath : jsstring;
  createdAt : Z;
  expiresAt : Z
}.

(** The service together with the part of the outside world it acts on.
    A progress callback is identified by the observer it reports to;
    [delivered] lists the callback invocations, oldest first; [timers] the
    pending [setTimeout] registrations of [scheduleCleanup].  The file system
    maps a path to the entries of the archive stored there; its operations
    fail only for the reasons visible in the map. *)
Record World := mkWorld {
  downloadDir : jsstring;
  zipTasks : gmap jsstring ZipTask;
  progressCallbacks : gmap jsstring nat;
  files : gmap jsstring (list Entry);
  delivered : list (nat * ZipProgress);
  timers : list (Z * jsstring)
}.

Definition setTasks (f : gmap jsstring ZipTask -> gmap jsstring ZipTask) (w : World) : World :=
  {| downloadDir := downloadDir w; zipTasks := f (zipTasks w);
     progressCallbacks := progressCallbacks w; files := files w;
     delivered := delivered w; timers := timers w |}.

Definition setCallbacks (f : gmap jsstring nat -> gmap jsstring nat) (w : World) : World :=
  {| downloadDir := downloadDir w; zipTasks := zipTasks w;
     progressCallbacks := f (progressCallbacks w); files := files w;
     delivered := delivered w; timers := timers w |}.

Definition setFiles (f : gmap jsstring (list Entry) -> gmap jsstring (list Entry)) (w : World)
  : World :=
  {| downloadDir := downloadDir w; zipTasks := zipTasks w;
     progressCallbacks := progressCallbacks w; files := f (files w);
     delivered := delivered w; timers := timers w |}.

Definition deliver (obs : nat) (p : ZipProgress) (w : World) : World :=
  {| downloadDir := downloadDir w; zipTasks := zipTasks w;
     progressCallbacks := progressCallbacks w; files := files w;
     delivered := delivered w ++ [(obs, p)]; timers := timers w |}.

Definition addTimer (delay : Z) (tid : jsstring) (w : World) : World :=
  {| downloadDir := downloadDir w; zipTasks := zipTasks w;
     progressCallbacks := progressCallbacks w; files := files w;
     delivered := delivered w; timers := timers w ++ [(delay, tid)] |}.

(** [path.join(dir, name)] for a normalized directory and a plain file name. *)
Definition pathJoin (dir name : jsstring) : jsstring := dir ++ [slash] ++ name.

(** Get progress for a ZIP task. *)
Definition getProgress (tid : jsstring) (w : World) : option ZipProgress :=
  match zipTasks w !! tid with
  | None => None
  | Some task =>
    Some {| taskId := tid; progress := 0; status := Pending; message := MsgPreparing;
            downloadedCount := 0; totalCount := List.length (images task) |}
  end.

(** [{ ...currentProgress, ...updates }] *)
Definition mergeProgress (p : ZipProgress) (u : ZipUpdate) : ZipProgress :=
  {| taskId := taskId p;
     progress := default (progress p) (u_progress u);
     status := default (status p) (u_status u);
     message := default (message p) (u_message u);
     downloadedCount := default (downloadedCount p) (u_downloadedCount u);
     totalCount := default (totalCount p) (u_totalCount u) |}.

(** Update progress for a task. *)
Definition updateProgress (tid : jsstring) (u : ZipUpdate) (w : World) : World :=
  match progressCallbacks w !! tid with
  | Some callback =>
    let currentProgress :=
      default {| taskId := tid; progress := 0; status := Pending; message := MsgNone;
                 downloadedCount := 0; totalCount := 0 |} (getProgress tid w) in
    deliver callback (mergeProgress currentProgress u) w
  | None => w
  end.

(** Clean up task and associated files. *)
Definition cleanupTask (tid : jsstring) (w : World) : World :=
  match zipTasks w !! tid with
  | Some task =>
    let w1 := if bool_decide (is_Some (files w !! outputPath task))   (* fs.pathExists *)
              then setFiles (delete (outputPath task)) w              (* fs.unlink *)
              else w in
    setCallbacks (delete tid) (setTasks (delete tid) w1)
  | None => w
  end.

(** [Math.round((count / total) * scale)]: the nearest integer to the exact
    quotient, halves rounded up.  [count] never exceeds [total] where this is
    used, so the double-precision result stays between 0 and [scale] too. *)
Definition roundedShare (count total : nat) (scale : Z) : Z :=
  (2 * Z.of_nat count * scale + Z.of_nat total) / (2 * Z.of_nat total).

(** *** Errors and promises *)

Inductive ZipError :=
| NoImagesSelected          (* 'No images selected for download' *)
| TaskNotFound              (* 'Task not found' *)
| DownloadTaskNotFound      (* 'Download task not found' *)
| DownloadExpired           (* 'Download expired' *)
| DownloadFileNotFound      (* 'Download file not found' *)
| ArchiveFailure (e : jsstring)   (* the error of an archive 'error' event *)
| StatFailure.              (* fs.stat on a missing path *)

Inductive Settled (A : Type) :=
| Fulfilled (a : A)
| Rejected (e : ZipError)
| Unsettled.                (* the promise stays pending *)

Arguments Fulfilled {A}.
Arguments Rejected {A}.
Arguments Unsettled {A}.

(** *** What the environment decides during one packaging call *)

Inductive Event :=
| Settle (index : nat)            (* the retrieval started for position [index] settles *)
| ArchiveProgress                 (* the archive emits 'progress' *)
| ArchiveError (e : jsstring).    (* the archive emits 'error' *)

Record CallEnv := mkCallEnv {
  env_uuid : jsstring;                 (* uuidv4() *)
  env_now : Z;                         (* Date.now() when expiresAt is computed *)
  env_created : Z;                     (* new Date() stored as createdAt *)
  env_scheduled : Z;                   (* Date.now() inside scheduleCleanup *)
  env_fetch : nat -> option (list N);  (* outcome of the request for each position;
                                          None when it fails or times out *)
  env_events : list Event;             (* the order in which things happen until the
                                          output stream closes *)
  env_size : Z                         (* the size fs.stat reports for the output *)
}.

(** The variables of one [generateZip] call. *)
Record Run := mkRun {
  archive : list Entry;          (* entries appended so far, in order *)
  count : nat;                   (* downloadedCount *)
  settledIdx : list nat;         (* positions whose retrieval has settled *)
  world : World
}.

Section Generate.

Variable tid : jsstring.
Variable imgs : list PinImage.
Variable path : jsstring.
Variable fetch : nat -> option (list N).

Let totalCount' : nat := List.length imgs.

(** [archive.append(data, { name })]; the archive is piped to the output
    file, which holds what was appended so far. *)
Definition append (e : Entry) (r : Run) : Run :=
  {| archive := archive r ++ [e]; count := count r; settledIdx := settledIdx r;
     world := setFiles (<[path := archive r ++ [e]]>) (world r) |}.

(** The first part of the callback of [images.map], up to its [await]. *)
Definition announce (index : nat) (r : Run) : Run :=
  {| archive := archive r; count := count r; settledIdx := settledIdx r;
     world := updateProgress tid
                {| u_progress := Some (roundedShare (count r) totalCount' 50);
                   u_status := Some Downloading;
                   u_message := Some (MsgDownloading (index + 1) totalCount');
                   u_downloadedCount := Some (count r);
                   u_totalCount := Some totalCount' |} (world r) |}.

(** The rest of that callback, once the request has settled. *)
Definition settle (index : nat) (image : PinImage) (r : Run) : Run :=
  let r1 :=
    match fetch index with
    | Some body =>
      let r' := append {| entry_name := entryFilename image index;
                          entry_data := Streamed body |} r in
      {| archive := archive r'; count := Datatypes.S (count r');
         settledIdx := settledIdx r'; world := world r' |}
    | None =>
      (* Add placeholder for failed images *)
      append (placeholderEntry image index) r
    end in
  {| archive := archive r1; count := count r1;
     settledIdx := settledIdx r1 ++ [index]; world := world r1 |}.

(** The handler of the archive's 'progress' event. *)
Definition onArchiveProgress (r : Run) : Run :=
  {| archive := archive r; count := count r; settledIdx := settledIdx r;
     world := updateProgress tid
                {| u_progress := Some (roundedShare (count r) totalCount' 100);
                   u_status := Some Compressing;
                   u_message := Some (MsgCompressing (count r) totalCount');
                   u_downloadedCount := Some (count r);
                   u_totalCount := Some totalCount' |} (world r) |}.

(** The handler of the archive's 'error' event, before [reject(err)]. *)
Definition onArchiveError (e : jsstring) (r : Run) : Run :=
  {| archive := archive r; count := count r; settledIdx := settledIdx r;
     world := updateProgress tid
                {| u_progress := Some 0;
                   u_status := Some Failed;
                   u_message := Some (MsgCreationFailed e);
                   u_downloadedCount := Some 0%nat;
                   u_totalCount := Some totalCount' |} (world r) |}.

(** The handler of the output's 'close' event, before [resolve()]. *)
Definition onClose (r : Run) : Run :=
  {| archive := archive r; count := count r; settledIdx := settledIdx r;
     world := updateProgress tid
                {| u_progress := Some 100;
                   u_status := Some Completed;
                   u_message := Some MsgCreated;
                   u_downloadedCount := Some totalCount';
                   u_totalCount := Some totalCount' |} (world r) |}.

(** The events of the environment, in order.  A retrieval settles once: a
    [Settle] for a position that does not exist or has settled already is
    not an event of this call.  On 'error' the promise is rejected and the
    caller proceeds. *)
Fixpoint react (events : list Event) (r : Run) : Run * option ZipError :=
  match events with
  | [] => (r, None)
  | Settle index :: rest =>
    match imgs !! index with
    | Some image =>
      if bool_decide (index ∈ settledIdx r) then react rest r
      else react rest (settle index image r)
    | None => react rest r
    end
  | ArchiveProgress :: rest => react rest (onArchiveProgress r)
  | ArchiveError e :: rest => (onArchiveError e r, Some (ArchiveFailure e))
  end.

(** [images.map(async (image, index) => ...)] up to the first [await] of
    each callback: they all run before any request settles. *)
Fixpoint announceAll (index : nat) (l : list PinImage) (r : Run) : Run :=
  match l with
  | [] => r
  | _ :: l' => announceAll (Datatypes.S index) l' (announce index r)
  end.

End Generate.

(** The variables of [generateZip] once the output stream is created:
    [fs.createWriteStream(task.outputPath)] leaves an empty file. *)
Definition startRun (path : jsstring) (w : World) : Run :=
  {| archive := []; count := 0; settledIdx := [];
     world := setFiles (<[path := []]>) w |}.

(** The callbacks of [images.map] up to their [await], then the events. *)
Definition finalRun (tid : jsstring) (imgs : list PinImage) (path : jsstring)
    (fetch : nat -> option (list N)) (events : list Event) (w : World)
  : Run * option ZipError :=
  react tid imgs path fetch events (announceAll tid imgs 0 imgs (startRun path w)).

(** Generate ZIP file with progress tracking.  [Promise.all] is the join:
    the archive is finalized, and the output closed, once every retrieval has
    settled; until then the promise stays pending. *)
Definition generateZip (tid : jsstring) (imgs : list PinImage)
    (fetch : nat -> option (list N)) (events : list Event) (w : World)
  : Settled unit * World :=
  match zipTasks w !! tid with
  | None => (Rejected TaskNotFound, w)
  | Some task =>
    match finalRun tid imgs (outputPath task) fetch events w with
    | (r, Some err) => (Rejected err, world r)
    | (r, None) =>
      if Nat.eqb (List.length (settledIdx r)) (List.length imgs)
      then (Fulfilled tt, world (onClose tid imgs r))
      else (Unsettled, world r)
    end
  end.

Record DownloadInfo := mkDownloadInfo {
  d_taskId : jsstring;
  downloadUrl : jsstring;
  fileSize : Z;
  d_expiresAt : Z
}.

Definition retention : Z := 24 * 60 * 60 * 1000.

(** Schedule cleanup for expired files. *)
Definition scheduleCleanup (now : Z) (tid : jsstring) (w : World) : World :=
  match zipTasks w !! tid with
  | None => w
  | Some task =>
    let delay := expiresAt task - now in
    if 0 <? delay then addTimer delay tid w else w
  end.

(** Filter images if specific IDs provided. *)
Definition filterImages (imgs : list PinImage) (ids : list jsstring) : list PinImage :=
  match ids with
  | [] => imgs
  | _ :: _ => List.filter (fun img => bool_decide (id img ∈ ids)) imgs
  end.

(** The output path of a task: [path.join(this.downloadDir, `${taskId}.zip`)]. *)
Definition zipPath (w : World) (tid : jsstring) : jsstring :=
  pathJoin (downloadDir w) (tid ++ lit ".zip").

(** Store task information. *)
Definition newTask (env : CallEnv) (board : jsstring) (ids : list jsstring)
    (filteredImages : list PinImage) (w : World) : ZipTask :=
  {| t_taskId := env_uuid env; boardId := board; imageIds := ids;
     images := filteredImages; outputPath := zipPath w (env_uuid env);
     createdAt := env_created env; expiresAt := env_now env + retention |}.

Definition register (tid : jsstring) (task : ZipTask) (onProgress : option nat) (w : World)
  : World :=
  let w1 := setTasks (<[tid := task]>) w in
  match onProgress with
  | Some cb => setCallbacks (<[tid := cb]>) w1
  | None => w1
  end.

(** Create ZIP archive from Pinterest images. *)
Definition createZipArchive (env : CallEnv) (board : jsstring) (imgs : list PinImage)
    (ids : list jsstring) (onProgress : option nat) (w : World)
  : Settled DownloadInfo * World :=
  let tid := env_uuid env in
  let filteredImages := filterImages imgs ids in
  match filteredImages with
  | [] => (Rejected NoImagesSelected, w)
  | _ :: _ =>
    let task := newTask env board ids filteredImages w in
    let w2 := register tid task onProgress w in
    match generateZip tid filteredImages (env_fetch env) (env_events env) w2 with
    | (Fulfilled _, w3) =>
      (* fs.stat(outputPath) *)
      match files w3 !! outputPath task with
      | Some _ =>
        let w4 := scheduleCleanup (env_scheduled env) tid w3 in
        (Fulfilled {| d_taskId := tid;
                      downloadUrl := lit "/api/download/" ++ tid;
                      fileSize := env_size env;
                      d_expiresAt := expiresAt task |}, w4)
      | None => (Rejected StatFailure, cleanupTask tid w3)
      end
    | (Rejected err, w3) =>
      (* Clean up on failure *)
      (Rejected err, cleanupTask tid w3)
    | (Unsettled, w3) => (Unsettled, w3)
    end
  end.

(** Get download stream for a completed ZIP file; [now] is [new Date()]. *)
Definition getDownloadStream (now : Z) (tid : jsstring) (w : World)
  : Settled (list Entry) * World :=
  match zipTasks w !! tid with
  | None => (Rejected DownloadTaskNotFound, w)
  | Some task =>
    if expiresAt task <? now then (Rejected DownloadExpired, cleanupTask tid w)
    else match files w !! outputPath task with
         | None => (Rejected DownloadFileNotFound, w)
         | Some content => (Fulfilled content, w)
         end
  end.

(** *** Properties of runs *)

(** The positions whose retrieval settles, in the order of the events. *)
Fixpoint settles (events : list Event) : list nat :=
  match events with
  | [] => []
  | Settle index :: rest => index :: settles rest
  | _ :: rest => settles rest
  end.

(** The archive reports no error. *)
Definition noArchiveError (events : list Event) : Prop :=
  ∀ e, ArchiveError e ∉ events.

(** Each of the [n] retrievals started settles, once, in some order. *)
Definition allSettleOnce (events : list Event) (n : nat) : Prop :=
  settles events ≡ₚ seq 0 n.

(** What a progress update reports, by phase. *)
Definition phasePercent (p : ZipProgress) : Prop :=
  match status p with
  | Pending => True
  | Downloading =>
    progress p = roundedShare (downloadedCount p) (totalCount p) 50 ∧
    0 <= progress p <= 50
  | Compressing =>
    progress p = roundedShare (downloadedCount p) (totalCount p) 100 ∧
    0 <= progress p <= 100
  | Completed => progress p = 100
  | Failed => progress p = 0
  end.

(** The parts of the world that only [createZipArchive], [cleanupTask] and
    [scheduleCleanup] change. *)
Definition sameService (w w' : World) : Prop :=
  downloadDir w' = downloadDir w ∧ zipTasks w' = zipTasks w
  ∧ progressCallbacks w' = progressCallbacks w ∧ timers w' = timers w.

(** Code units that [sanitizeFilename] leaves alone. *)
Definition plain (c : N) : Prop := isHostile c = false ∧ isSpace c = false.




(** *** Sample inputs *)

Definition board : jsstring := lit "https://www.pinterest.com/u/b/".

Definition pinA : PinImage :=
  {| id := lit "a"; url := lit "https://i.pinimg.com/originals/aa/one.jpg";
     thumbnail := lit "https://i.pinimg.com/236x/aa/one.jpg";
     title := lit "Pinterest Image"; source := board |}.

Definition pinB : PinImage :=
  {| id := lit "b"; url := lit "https://i.pinimg.com/originals/bb/two.jpg";
     thumbnail := lit "https://i.pinimg.com/236x/bb/two.jpg";
     title := lit "Pinterest Image"; source := board |}.



Definition freshWorld : World :=
  {| downloadDir := lit "temp/downloads"; zipTasks := ∅; progressCallbacks := ∅;
     files := ∅; delivered := []; timers := [] |}.

Definition sampleEnv (fetch : nat -> option (list N)) (events : list Event) : CallEnv :=
  {| env_uuid := lit "3f2b8c1e"; env_now := 1000; env_created := 1000;
     env_scheduled := 1500; env_fetch := fetch; env_events := events;
     env_size := 2048 |}.

(** Both requests succeed, the second one first. *)
Definition envAllRetrieved : CallEnv :=
  sampleEnv (fun _ => Some [255; 216; 255]%N)
            [Settle 1; ArchiveProgress; Settle 0; ArchiveProgress].


(** The archive reports an error after the first entry. *)
Definition envArchiveError : CallEnv :=
  sampleEnv (fun _ => Some [255; 216; 255]%N)
            [Settle 0; ArchiveError (lit "write EPIPE"); Settle 1].

(** A world with one packaged task that expires at time 5000. *)
Definition expiringTask : ZipTask :=
  {| t_taskId := lit "3f2b8c1e"; boardId := board; imageIds := []; images := [pinA];
     outputPath := zipPath freshWorld (lit "3f2b8c1e"); createdAt := 0; expiresAt := 5000 |}.

Definition servedWorld : World :=
  {| downloadDir := lit "temp/downloads";
     zipTasks := {[ lit "3f2b8c1e" := expiringTask ]};
     progressCallbacks := ∅;
     files := {[ zipPath freshWorld (lit "3f2b8c1e") :=
                   [ {| entry_name := lit "Pinterest-Image.jpg";
                        entry_data := Streamed [255; 216; 255]%N |} ] ]};
     delivered := []; timers := [] |}.

End Zip.

(** ** URL validation: [utils/validators.ts] *)

Module Validators.

(** The part of the platform's [URL] class that the validators use.  The
    class itself belongs to the runtime; everything below holds for any
    implementation of it. *)
Record UrlApi := mkUrlApi {
  Url : Type;
  parseUrl : jsstring -> option Url;       (* new URL(s); None when it throws *)
  hostname : Url -> jsstring;              (* parsedUrl.hostname *)
  pathname : Url -> jsstring;              (* parsedUrl.pathname *)
  setPathname : jsstring -> Url -> Url;    (* parsedUrl.pathname = s *)
  clearSearch : Url -> Url;                (* parsedUrl.search = '' *)
  clearHash : Url -> Url;                  (* parsedUrl.hash = '' *)
  urlToString : Url -> jsstring            (* parsedUrl.toString() *)
}.

(** [s.split(sep)] for a separator of one code unit: the pieces between the
    separators, empty pieces included. *)
Fixpoint splitOn (sep : N) (s : jsstring) : list jsstring :=
  match s with
  | [] => [[]]
  | c :: s' =>
    match splitOn sep s' with
    | cur :: rest => if N.eqb c sep then [] :: cur :: rest else (c :: cur) :: rest
    | [] => [[]]
    end
  end.

(** [pathname.split('/').filter(part => part.length > 0)] *)
Definition pathParts (path : jsstring) : list jsstring :=
  List.filter truthy (splitOn slash path).

(** One code unit of the class [[a-zA-Z0-9_-]]. *)
Definition isNameChar (c : N) : bool :=
  ((97 <=? c) && (c <=? 122) || (65 <=? c) && (c <=? 90) || (48 <=? c) && (c <=? 57)
   || (c =? 95) || (c =? 45))%N.

(** [/^[a-zA-Z0-9_-]+$/.test(s)] *)
Definition validPattern (s : jsstring) : bool :=
  truthy s && forallb isNameChar s.

Record ValidationResult := mkValidation {
  isValid : bool;
  isPinterestUrl : bool;
  boardId : option jsstring;
  username : option jsstring;
  errorMessage : option jsstring
}.

Definition invalid (pinterest : bool) (msg : string) : ValidationResult :=
  {| isValid := false; isPinterestUrl := pinterest; boardId := None;
     username := None; errorMessage := Some (lit msg) |}.

(** Add protocol if missing. *)
Definition withProtocol (url : jsstring) : jsstring :=
  if startsWith (lit "http") url then url else lit "https://" ++ url.

(** Validates if a URL is a valid Pinterest board URL. *)
Definition validatePinterestUrl (api : UrlApi) (url : jsstring) : ValidationResult :=
  match parseUrl api (withProtocol url) with
  | None => invalid false "Invalid URL format"
  | Some parsedUrl =>
    (* Check if it's a Pinterest domain *)
    if negb (includes (lit "pinterest.com") (hostname api parsedUrl))
    then invalid false "URL must be from pinterest.com"
    else
      match pathParts (pathname api parsedUrl) with
      | user :: boardName :: _ =>
        (* Validate username and board name format *)
        if negb (truthy user) || negb (truthy boardName)
        then invalid true "Missing username or board name"
        else if negb (validPattern user) || negb (validPattern boardName)
        then invalid true "Username or board name contains invalid characters"
        else {| isValid := true; isPinterestUrl := true;
                boardId := Some (user ++ [slash] ++ boardName);
                username := Some user; errorMessage := None |}
      | _ => invalid true "Invalid Pinterest board URL format"
      end
  end.

(** [s.endsWith('/')] *)
Definition endsWithSlash (s : jsstring) : bool :=
  match List.rev s with
  | c :: _ => N.eqb c slash
  | [] => false
  end.

(** Normalizes a Pinterest URL to ensure consistent format. *)
Definition normalizePinterestUrl (api : UrlApi) (url : jsstring) : jsstring :=
  let normalizedUrl := withProtocol (trim url) in
  match parseUrl api normalizedUrl with
  | None => normalizedUrl
  | Some parsedUrl =>
    (* Ensure it ends with a slash for consistency *)
    let u1 := if endsWithSlash (pathname api parsedUrl) then parsedUrl
              else setPathname api (pathname api parsedUrl ++ [slash]) parsedUrl in
    (* Remove trailing parameters that might interfere *)
    urlToString api (clearHash api (clearSearch api u1))
  end.

Definition privateIndicators : list jsstring :=
  [ lit "board is private"; lit "private board"; lit "login to view";
    lit "sign in to see"; lit "this board is private"; lit "board not found";
    lit "page not found" ].

(** Checks if a Pinterest board might be private.  [toLowerCase] is the
    platform's [String.prototype.toLowerCase]. *)
Definition isBoardPrivate (toLowerCase : jsstring -> jsstring) (htmlContent : jsstring)
  : bool :=
  let lowerContent := toLowerCase htmlContent in
  existsb (fun indicator => includes indicator lowerContent) privateIndicators.

(** *** A sample implementation of the URL interface

    Enough of a URL parser to run the validators on examples: an absolute
    [http(s)://host/path?query#hash] is cut at the first slash after the
    host and at the first [?] or [#]. *)
Record SampleUrl := mkSampleUrl {
  su_scheme : jsstring; su_host : jsstring; su_path : jsstring;
  su_search : jsstring; su_hash : jsstring
}.

Definition isHostEnd (c : N) : bool := (c =? 47)%N || (c =? 63)%N || (c =? 35)%N.
Definition isPathEnd (c : N) : bool := (c =? 63)%N || (c =? 35)%N.

Definition sampleParseAfter (scheme rest : jsstring) : option SampleUrl :=
  let host := takeWhile (fun c => negb (isHostEnd c)) rest in
  let afterHost := dropWhile (fun c => negb (isHostEnd c)) rest in
  let path := takeWhile (fun c => negb (isPathEnd c)) afterHost in
  let afterPath := dropWhile (fun c => negb (isPathEnd c)) afterHost in
  let search := takeWhile (fun c => negb (N.eqb c 35)) afterPath in
  let hash := dropWhile (fun c => negb (N.eqb c 35)) afterPath in
  if truthy host
  then Some {| su_scheme := scheme; su_host := host;
               su_path := orElse path [slash]; su_search := search; su_hash := hash |}
  else None.

Definition sampleParse (s : jsstring) : option SampleUrl :=
  if startsWith (lit "https://") s then sampleParseAfter (lit "https://") (List.skipn 8 s)
  else if startsWith (lit "http://") s then sampleParseAfter (lit "http://") (List.skipn 7 s)
  else None.

Definition sampleUrlApi : UrlApi :=
  {| Url := SampleUrl;
     parseUrl := sampleParse;
     hostname := su_host;
     pathname := su_path;
     setPathname := fun p u => {| su_scheme := su_scheme u; su_host := su_host u;
                                  su_path := p; su_search := su_search u;
                                  su_hash := su_hash u |};
     clearSearch := fun u => {| su_scheme := su_scheme u; su_host := su_host u;
                                su_path := su_path u; su_search := [];
                                su_hash := su_hash u |};
     clearHash := fun u => {| su_scheme := su_scheme u; su_host := su_host u;
                              su_path := su_path u; su_search := su_search u;
                              su_hash := [] |};
     urlToString := fun u => su_scheme u ++ su_host u ++ su_path u ++ su_search u
                             ++ su_hash u |}.

End Validators.

(** ** The scraper's entry point: [scrapeBoard] and the task registry *)

Module Board.

Import Scraper Validators.

(** Get progress for a specific task. *)
Definition getScrapingProgress (taskId : jsstring) (r : Registry)
  : option ScrapingProgress :=
  scrapingTasks r !! taskId.

(** [this.scrapingTasks.set(taskId, p)] *)
Definition setProgress (taskId : jsstring) (p : ScrapingProgress) (r : Registry) : Registry :=
  {| scrapingTasks := <[taskId := p]> (scrapingTasks r); notified := notified r |}.

(** Two updates in a row as one: each field is the one of the later update
    when it has it, and the one of the earlier update otherwise. *)
Definition laterUpdate (u1 u2 : ProgressUpdate) : ProgressUpdate :=
  {| u_currentImages := match u_currentImages u2 with Some x => Some x
                        | None => u_currentImages u1 end;
     u_totalImages := match u_totalImages u2 with Some x => Some x
                      | None => u_totalImages u1 end;
     u_status := match u_status u2 with Some x => Some x | None => u_status u1 end;
     u_message := match u_message u2 with Some x => Some x | None => u_message u1 end |}.

(** Cleanup resources: the registry part of [cleanup]. *)
Definition cleanup (r : Registry) : Registry :=
  {| scrapingTasks := ∅; notified := notified r |}.

(** What the scripts of [extractBoardInfo] find in the page: the text of the
    first of [h1], the element with test id [boardName] and [title], and the [content]
    attributes of the description [meta] elements, in document order. *)
Record BoardDom := mkBoardDom {
  titleText : option jsstring;
  metaContents : list (option jsstring)
}.

Definition boardNameOf (dom : BoardDom) : jsstring :=
  match titleText dom with
  | Some t => orElse (trim t) (lit "Untitled Board")
  | None => lit "Untitled Board"
  end.

Fixpoint firstContent (contents : list (option jsstring)) : jsstring :=
  match contents with
  | [] => lit "Pinterest board collection"
  | Some c :: rest => if truthy c then c else firstContent rest
  | None :: rest => firstContent rest
  end.

(** Extract board name and description; [None] when a script throws. *)
Definition extractBoardInfo (dom : option BoardDom) : jsstring * jsstring :=
  match dom with
  | Some d =>
    (trim (replaceFirst (lit " - Pinterest") [] (boardNameOf d)),
     trim (firstContent (metaContents d)))
  | None => (lit "Pinterest Board", lit "Collection of Pinterest images")
  end.

(** The browser as [scrapeBoard] drives it, over page states of type [S].
    A launch, page creation or navigation can fail with a message; the other
    calls return. *)
Record Browser (S : Type) := mkBrowser {
  launchBrowser : option jsstring;            (* Some msg: puppeteer.launch throws *)
  openPage : jsstring + S;                    (* newPage, setViewport, setUserAgent *)
  goto : jsstring -> S -> option jsstring * S;  (* page.goto(url, ...); Some msg: throws *)
  pageContent : S -> jsstring * S;            (* page.content() *)
  waitForPins : S -> S;                       (* waitForSelector with its fallbacks *)
  evalBoardDom : S -> option BoardDom * S;    (* the scripts of extractBoardInfo *)
  pageOf : Page S                             (* what collectImages uses *)
}.

Arguments launchBrowser {S}.
Arguments openPage {S}.
Arguments goto {S}.
Arguments pageContent {S}.
Arguments waitForPins {S}.
Arguments evalBoardDom {S}.
Arguments pageOf {S}.

Record ScrapingResult := mkScrapingResult {
  r_boardId : jsstring;
  r_boardName : jsstring;
  r_description : jsstring;
  r_images : list PinImage;
  r_totalImages : nat;
  r_taskId : jsstring
}.

Inductive Scraped :=
| Done (result : ScrapingResult)
| Threw (msg : jsstring)         (* an Error with this message *)
| Unfinished.                    (* the loop of collectImages is still running *)

Section ScrapeBoard.

Context {S : Type}.
Variable api : UrlApi.
Variable toLowerCase : jsstring -> jsstring.
Variable browser : Browser S.
Variable taskId : jsstring.          (* uuidv4() *)
Variable hasCallback : bool.         (* whether onProgress was passed *)

(** The [catch] block of [scrapeBoard]. *)
Definition failScrape (msg : jsstring) (r : Registry) : Scraped * Registry :=
  (Threw msg,
   notify hasCallback taskId
     (updateProgress taskId
        {| u_currentImages := None; u_totalImages := None;
           u_status := Some Failed; u_message := Some (MsgError msg) |} r)).

(** Scrape a Pinterest board and extract all images; the loop of
    [collectImages] runs for at most [fuel] iterations. *)
Definition scrapeBoard (fuel : nat) (boardUrl : jsstring) (r : Registry)
  : Scraped * Registry :=
  let normalizedUrl := normalizePinterestUrl api boardUrl in
  (* Validate URL first *)
  let validationResult := validatePinterestUrl api normalizedUrl in
  if negb (isValid validationResult)
  then (Threw (orElse (default [] (errorMessage validationResult))
                      (lit "Invalid Pinterest URL")), r)
  else
    match launchBrowser browser with
    | Some msg => (Threw msg, r)
    | None =>
      (* Initialize progress tracking *)
      let r1 := notify hasCallback taskId
                  (setProgress taskId
                     {| currentImages := 0; totalImages := 0; status := Initializing;
                        message := MsgInitializing |} r) in
      match openPage browser with
      | inl msg => failScrape msg r1
      | inr s0 =>
        (* Navigate to board *)
        let r2 := notify hasCallback taskId
                    (updateProgress taskId
                       {| u_currentImages := None; u_totalImages := None;
                          u_status := Some Loading; u_message := Some MsgLoading |} r1) in
        match goto browser normalizedUrl s0 with
        | (Some msg, _) => failScrape msg r2
        | (None, s1) =>
          (* Check if board is private *)
          let '(html, s2) := pageContent browser s1 in
          if isBoardPrivate toLowerCase html
          then failScrape (lit "This board appears to be private or requires login") r2
          else
            let s3 := waitForPins browser s2 in
            let '(dom, s4) := evalBoardDom browser s3 in
            let boardInfo := extractBoardInfo dom in
            match collectImages (pageOf browser) taskId hasCallback fuel s4 r2 with
            | StillLooping c => (Unfinished, registry c)
            | Returned c =>
              (Done {| r_boardId := default [] (boardId validationResult);
                       r_boardName := boardInfo.1;
                       r_description := boardInfo.2;
                       r_images := images (locals c);
                       r_totalImages := List.length (images (locals c));
                       r_taskId := taskId |},
               finishScrape taskId hasCallback c)
            end
        end
      end
    end.

End ScrapeBoard.

(** *** A sample browser *)

(** A browser whose page is the stalling page of the loop, with the given
    content and title. *)
Definition sampleBrowser (html : jsstring) : Browser unit :=
  {| launchBrowser := None;
     openPage := inr tt;
     goto := fun _ s => (None, s);
     pageContent := fun s => (html, s);
     waitForPins := fun s => s;
     evalBoardDom := fun s =>
       (Some {| titleText := Some (lit " Travel ideas - Pinterest ");
                metaContents := [None; Some (lit "Places to see")] |}, s);
     pageOf := stallingPage |}.

(** ASCII lower-casing, which is what [toLowerCase] does on ASCII text. *)
Definition asciiLower (s : jsstring) : jsstring :=
  List.map (fun c => if ((65 <=? c) && (c <=? 90))%N then (c + 32)%N else c) s.

Definition sampleUrl : jsstring := lit "pinterest.com/traveller/travel-ideas".

(** The wrappers that the stalling page shows. *)
Definition sampleWrappers : list PinWrapper :=
  (evalExtract stallingPage tt).1.1.

Definition sampleImage : PinImage :=
  {| id := lit "pinWrapper"; url := lit "https://i.pinimg.com/originals/ab/cd/pin.jpg";
     thumbnail := lit "https://i.pinimg.com/236x/ab/cd/pin.jpg";
     title := lit "Pinterest Image"; source := lit "https://www.pinterest.com/u/b/" |}.

End Board.

(** ** Retention of archives: [cleanupExpired] and [getStats] *)

Module Lifecycle.

Import Zip.

(** The ids of the tasks with [now > task.expiresAt].  The service's map is
    iterated in insertion order, which the finite map does not record; the
    cleanups of different tasks commute, so the order does not show in the
    result. *)
Definition expiredTasks (now : Z) (w : World) : list jsstring :=
  (map_to_list (filter (λ kt, expiresAt kt.2 < now) (zipTasks w))).*1.

(** [for (const taskId of ids) await this.cleanupTask(taskId)] *)
Definition cleanupAll (ids : list jsstring) (w : World) : World :=
  fold_left (fun w' tid => cleanupTask tid w') ids w.

(** Cleanup expired files; [now] is [new Date()]. *)
Definition cleanupExpired (now : Z) (w : World) : World :=
  cleanupAll (expiredTasks now w) w.

Record Stats := mkStats { activeTasks : nat; totalSize : Z }.

Section Stats.

(** [fs.statSync(path).size] of an existing output file. *)
Variable sizeOf : list Entry -> Z.

(** The contribution of one task to [totalSize]: nothing when [statSync]
    throws because the file might not exist yet. *)
Definition taskSize (w : World) (task : ZipTask) : Z :=
  match files w !! outputPath task with
  | Some content => sizeOf content
  | None => 0
  end.

(** Get statistics about current tasks. *)
Definition getStats (w : World) : Stats :=
  {| activeTasks := size (zipTasks w);
     totalSize := map_fold (fun _ task acc => acc + taskSize w task) 0 (zipTasks w) |}.

End Stats.

(** A world with the expiring task of [servedWorld] and a second task that
    expires at time 9000. *)
Definition laterTask : ZipTask :=
  {| t_taskId := lit "77aa01bc"; boardId := board; imageIds := []; images := [pinB];
     outputPath := zipPath freshWorld (lit "77aa01bc"); createdAt := 4000;
     expiresAt := 9000 |}.

Definition twoTaskWorld : World :=
  {| downloadDir := lit "temp/downloads";
     zipTasks := <[ lit "77aa01bc" := laterTask ]> (zipTasks servedWorld);
     progressCallbacks := ∅;
     files := <[ zipPath freshWorld (lit "77aa01bc") :=
                   [ {| entry_name := lit "Pinterest-Image.jpg";
                        entry_data := Streamed [255; 216]%N |} ] ]> (files servedWorld);
     delivered := []; timers := [] |}.

End Lifecycle.

(** ** The HTTP controller: [PinterestController] *)

Module Controller.

Import Scraper Validators Board Zip.

(** The message of the [Error] that a failure of the packaging service
    carries. *)
Definition errorText (e : ZipError) : jsstring :=
  match e with
  | NoImagesSelected => lit "No images selected for download"
  | TaskNotFound => lit "Task not found"
  | DownloadTaskNotFound => lit "Download task not found"
  | DownloadExpired => lit "Download expired"
  | DownloadFileNotFound => lit "Download file not found"
  | ArchiveFailure e => e
  | StatFailure => lit "ENOENT: no such file or directory, stat"
  end.

Inductive ProgressStatus := PPending | PProcessing | PCompleted | PFailed.

(** [ProgressResponse] as built for a scraping task. *)
Record ProgressResponse := mkProgressResponse {
  p_taskId : jsstring;
  p_progress : Z;
  p_status : ProgressStatus;
  p_message : ScrapeMessage;
  p_downloadedCount : nat;
  p_totalCount : nat
}.

Inductive Body :=
| ErrorBody (error : jsstring)
| ScrapeBody (result : ScrapingResult)
| DownloadBody (info : DownloadInfo)
| ScrapeProgressBody (p : ProgressResponse)
| ZipProgressBody (p : ZipProgress)
| FileBody (content : list Entry)        (* stream.pipe(res) *)
| NoResponse.                            (* the handler has not answered *)

(** [res.status(code).json(body)] *)
Record Response := mkResponse { code : nat; body : Body }.

(** Serve download file: GET /api/download/:taskId. *)
Definition serveDownload (now : Z) (tid : jsstring) (w : World) : Response * World :=
  match getDownloadStream now tid w with
  | (Fulfilled content, w') => ({| code := 200; body := FileBody content |}, w')
  | (Rejected e, w') =>
    let msg := errorText e in
    if includes (lit "not found") msg
    then ({| code := 404; body := ErrorBody (lit "Download not found") |}, w')
    else if includes (lit "expired") msg
    then ({| code := 410; body := ErrorBody (lit "Download has expired") |}, w')
    else ({| code := 500; body := ErrorBody (orElse msg (lit "Failed to serve download")) |},
          w')
  | (Unsettled, w') => ({| code := 0; body := NoResponse |}, w')
  end.

(** The observer behind the callback of [createDownload], which logs. *)
Definition consoleObserver : nat := 0.

(** Create ZIP download for selected images: POST /api/download.  The
    images are an empty array for simulation only. *)
Definition createDownload (env : CallEnv) (boardId : option jsstring)
    (imageIds : option (list jsstring)) (w : World) : Response * World :=
  match boardId with
  | None => ({| code := 400; body := ErrorBody (lit "Board ID is required") |}, w)
  | Some b =>
    if negb (truthy b)
    then ({| code := 400; body := ErrorBody (lit "Board ID is required") |}, w)
    else
      match createZipArchive env b [] (default [] imageIds) (Some consoleObserver) w with
      | (Fulfilled info, w') => ({| code := 200; body := DownloadBody info |}, w')
      | (Rejected e, w') =>
        let msg := errorText e in
        if includes (lit "No images selected") msg
        then ({| code := 400; body := ErrorBody (lit "No images selected for download") |},
              w')
        else ({| code := 500;
                 body := ErrorBody (orElse msg (lit "Failed to create download")) |}, w')
      | (Unsettled, w') => ({| code := 0; body := NoResponse |}, w')
      end
  end.

(** The percent of a scraping task:
    [Math.round((currentImages / Math.max(totalImages, 1)) * 100)]. *)
Definition scrapePercent (p : ScrapingProgress) : Z :=
  roundedShare (currentImages p) (Nat.max (totalImages p) 1) 100.

Definition scrapeStatus (s : ScrapeStatus) : ProgressStatus :=
  match s with
  | Scraper.Completed => PCompleted
  | Scraper.Failed => PFailed
  | _ => PProcessing
  end.

(** Get download progress: GET /api/progress/:taskId. *)
Definition getProgress (tid : jsstring) (r : Registry) (w : World) : Response :=
  (* Check scraping progress first *)
  match getScrapingProgress tid r with
  | Some p =>
    {| code := 200;
       body := ScrapeProgressBody
                 {| p_taskId := tid; p_progress := scrapePercent p;
                    p_status := scrapeStatus (Scraper.status p);
                    p_message := Scraper.message p;
                    p_downloadedCount := currentImages p;
                    p_totalCount := totalImages p |} |}
  | None =>
    (* Check ZIP progress *)
    match Zip.getProgress tid w with
    | Some zp => {| code := 200; body := ZipProgressBody zp |}
    | None => {| code := 404; body := ErrorBody (lit "Task not found") |}
    end
  end.

Section Scrape.

Context {S : Type}.
Variable api : UrlApi.
Variable toLowerCase : jsstring -> jsstring.
Variable browser : Browser S.
Variable taskId : jsstring.

(** Scrape Pinterest board and return image list: POST /api/scrape.  The
    service is called with a logging callback. *)
Definition scrapeBoardRoute (fuel : nat) (url : option jsstring) (r : Registry)
  : Response * Registry :=
  match url with
  | None => ({| code := 400; body := ErrorBody (lit "URL is required") |}, r)
  | Some u =>
    if negb (truthy u)
    then ({| code := 400; body := ErrorBody (lit "URL is required") |}, r)
    else
      (* Validate URL *)
      let validationResult := validatePinterestUrl api u in
      if negb (isValid validationResult)
      then ({| code := 400;
               body := ErrorBody (orElse (default [] (errorMessage validationResult))
                                         (lit "Invalid Pinterest URL")) |}, r)
      else
        match scrapeBoard api toLowerCase browser taskId true fuel u r with
        | (Done result, r') => ({| code := 200; body := ScrapeBody result |}, r')
        | (Threw msg, r') =>
          if includes (lit "private") msg
          then ({| code := 403;
                   body := ErrorBody (lit "This board is private or requires login") |}, r')
          else if includes (lit "Invalid Pinterest URL") msg
          then ({| code := 400; body := ErrorBody msg |}, r')
          else ({| code := 500;
                   body := ErrorBody (orElse msg (lit "Failed to scrape Pinterest board")) |},
                r')
        | (Unfinished, r') => ({| code := 0; body := NoResponse |}, r')
        end
  end.

End Scrape.

End Controller.

(** * Properties *)

(** ** Decimal strings *)

Module JSFacts.

Lemma digitsAux_value fuel : ∀ n acc,
  (n < 2 ^ N.of_nat fuel)%N → valueOf 0 (digitsAux fuel n acc) = valueOf n acc.
Proof.
  induction fuel as [|fuel IH]; intros n acc Hn.
  - simpl in *. assert (n = 0%N) by lia. by subst.
  - cbn [digitsAux]. destruct (N.ltb_spec n 10) as [Hlt|Hge].
    + unfold valueOf. cbn [fold_left]. f_equal.
      rewrite N.mod_small by done. clear Hn. lia.
    + rewrite IH.
      * unfold valueOf. cbn [fold_left]. f_equal.
        replace (48 + n mod 10 - 48)%N with (n mod 10)%N
          by (generalize (n mod 10)%N; clear; intros; lia).
        symmetry. by apply N.div_mod.
      * rewrite Nat2N.inj_succ, N.pow_succ_r' in Hn.
        apply N.Div0.div_lt_upper_bound.
        generalize dependent (2 ^ N.of_nat fuel)%N. intros. lia.
Qed.

Lemma decimal_value n : valueOf 0 (decimal n) = n.
Proof.
  unfold decimal. rewrite digitsAux_value; [done|].
  rewrite Nat2N.inj_succ, N2Nat.id.
  destruct (N.eq_dec n 0%N) as [->|Hn]; [done|].
  apply N.log2_spec. lia.
Qed.

Lemma decimal_inj a b : decimal a = decimal b → a = b.
Proof. intros H. rewrite <- (decimal_value a), <- (decimal_value b). by rewrite H. Qed.

Lemma digitsAux_digits fuel : ∀ n acc,
  Forall isDigit acc → Forall isDigit (digitsAux fuel n acc).
Proof.
  induction fuel as [|fuel IH]; intros n acc Hacc; cbn [digitsAux]; [done|].
  assert (isDigit (48 + n mod 10)%N).
  { pose proof (N.mod_upper_bound n 10 ltac:(lia)) as Hm. unfold isDigit.
    revert Hm. generalize (n mod 10)%N. clear. intros. lia. }
  destruct (n <? 10)%N; [by constructor | apply IH; by constructor].
Qed.

Lemma decimal_digits n : Forall isDigit (decimal n).
Proof. apply digitsAux_digits. constructor. Qed.



(** Two runs of digits that are each followed by a dot in equal strings are
    equal. *)
Lemma digits_before_dot d1 : ∀ d2 x1 x2,
  Forall isDigit d1 → Forall isDigit d2 →
  d1 ++ dot :: x1 = d2 ++ dot :: x2 → d1 = d2.
Proof.
  induction d1 as [|a d1 IH]; intros [|b d2] x1 x2 H1 H2 E; simpl in E.
  - done.
  - injection E as E _. inversion H2 as [|? ? Hb _]; subst. unfold isDigit, dot in Hb. lia.
  - injection E as E _. inversion H1 as [|? ? Ha _]; subst. unfold isDigit, dot in Ha. lia.
  - injection E as -> E. f_equal.
    inversion H1; inversion H2; subst. eapply IH; eauto.
Qed.

End JSFacts.

(** ** The harvest loop *)

Module ScraperFacts.
Import Scraper.

Lemma extractPin_canonical href w im : extractPin href w = Some im → canonical im.
Proof.
  unfold extractPin. destruct (w_img w) as [e|]; [|done].
  destruct (wrapperSrc e) as [src|]; [|done].
  intros [= <-]. reflexivity.
Qed.

Lemma extractImages_canonical href ws : Forall canonical (extractImages href ws).
Proof.
  unfold extractImages. induction ws as [|w ws IH]; simpl; [constructor|].
  destruct (extractPin href w) eqn:E; simpl; [|exact IH].
  constructor; [eapply extractPin_canonical; eauto | exact IH].
Qed.

Example highRes_236x :
  highResUrl (lit "https://i.pinimg.com/236x/ab/cd/img.jpg")
  = lit "https://i.pinimg.com/originals/ab/cd/img.jpg".
Proof. reflexivity. Qed.

Example highRes_474x :
  highResUrl (lit "https://i.pinimg.com/474x/ab/cd/img.jpg")
  = lit "https://i.pinimg.com/originals/ab/cd/img.jpg".
Proof. reflexivity. Qed.

Example highRes_other :
  highResUrl (lit "https://i.pinimg.com/736x/ab/cd/img.jpg")
  = lit "https://i.pinimg.com/736x/ab/cd/img.jpg".
Proof. reflexivity. Qed.

Lemma Inv_init : Inv [] ∅.
Proof. split; [constructor | set_solver | constructor]. Qed.

Lemma addUnique_Inv new : ∀ imgs seen,
  Forall canonical new → Inv imgs seen →
  Inv (addUnique new imgs seen).1 (addUnique new imgs seen).2.
Proof.
  induction new as [|im new IH]; intros imgs seen Hnew HI; simpl; [exact HI|].
  inversion Hnew as [|? ? Him Hrest]; subst.
  case_bool_decide as Hin; [by apply IH|].
  apply IH; [done|]. destruct HI as [Hnd Hseen Hcan]. split.
  - rewrite fmap_app. simpl. apply NoDup_app. split; [done|]. split.
    + intros u Hu Hu'. apply list_elem_of_singleton in Hu'. subst u.
      apply Hin, Hseen, Hu.
    + apply NoDup_singleton.
  - intros u. rewrite fmap_app, elem_of_app, elem_of_union, elem_of_singleton. simpl.
    rewrite list_elem_of_singleton, Hseen. tauto.
  - apply Forall_app. split; [done|]. by constructor.
Qed.

Section WithPage.
Context {S : Type} (page : Page S) (taskId : jsstring) (cb : bool).

Let InvC (c : Config S) : Prop := Inv (images (locals c)) (seenUrls (locals c)).

Lemma harvestView_Inv c imgs seen r s :
  InvC c → harvestView page taskId cb c = (imgs, seen, r, s) → Inv imgs seen.
Proof.
  unfold harvestView. intros HI.
  destruct (evalExtract page (pageState c)) as [[ws href] s1].
  pose proof (addUnique_Inv (extractImages href ws) _ _ (extractImages_canonical href ws) HI) as H.
  destruct (addUnique _ _ _) as [i' s']. intros [= <- <- <- <-]. exact H.
Qed.

Lemma loopBody_Inv c :
  InvC c →
  match loopBody page taskId cb c with Continue c' | Break c' => InvC c' end.
Proof.
  intros HI. unfold loopBody.
  destruct (harvestView page taskId cb c) as [[[imgs seen] r] s] eqn:E.
  pose proof (harvestView_Inv _ _ _ _ _ HI E) as H.
  destruct (scrollAndMeasure page s) as [[prev cur] s5].
  destruct (cur =? prev).
  - destruct (evalLoadMore page s5) as [[] s6]; exact H.
  - exact H.
Qed.

Lemma whileLoop_Inv fuel : ∀ c, InvC c → InvC (outcomeConfig (whileLoop page taskId cb fuel c)).
Proof.
  induction fuel as [|fuel IH]; intros c HI; simpl.
  - destruct (_ <? _)%nat; exact HI.
  - destruct (_ <? _)%nat; [|exact HI].
    pose proof (loopBody_Inv c HI) as H.
    destruct (loopBody page taskId cb c) as [c'|c']; [by apply IH | exact H].
Qed.


Lemma finishScrape_completed (c : Config S) :
  ∃ p, scrapingTasks (finishScrape taskId cb c) !! taskId = Some p
       ∧ status p = Completed
       ∧ currentImages p = List.length (images (locals c))
       ∧ totalImages p = List.length (images (locals c)).
Proof.
  unfold finishScrape, notify, updateProgress. simpl.
  destruct cb; [rewrite lookup_insert_eq; simpl|];
    (eexists; split; [apply lookup_insert_eq|]; simpl; auto).
Qed.

(** C5, as the loop implements it. In an iteration whose scroll height is
    unchanged after scrolling, the stall counter [scrollAttempts] is
    incremented and the "Load more" script is run.  If it clicked a button
    the counter keeps its incremented value and the loop goes back to its
    test, which leaves the loop once the counter has reached
    [maxScrollAttempts]; if there was no button the loop is left at once and
    [scrapeBoard] reports the task as completed. *)
Theorem stalled_iteration (c : Config S) imgs seen r2 s1 prev cur s5 clicked s6 :
  harvestView page taskId cb c = (imgs, seen, r2, s1) →
  scrollAndMeasure page s1 = (prev, cur, s5) →
  cur = prev →
  evalLoadMore page s5 = (clicked, s6) →
  (scrollAttempts (locals c) < maxScrollAttempts)%nat →
  let c' := mkConfig {| images := imgs; seenUrls := seen; previousHeight := prev;
                        scrollAttempts := Datatypes.S (scrollAttempts (locals c)) |} s6 r2 in
  loopBody page taskId cb c = (if clicked then Continue c' else Break c')
  ∧ (clicked = false →
       (∀ fuel, whileLoop page taskId cb (Datatypes.S fuel) c = Returned c')
       ∧ ∃ p, scrapingTasks (finishScrape taskId cb c') !! taskId = Some p
              ∧ status p = Completed)
  ∧ (clicked = true →
       (∀ fuel, whileLoop page taskId cb (Datatypes.S fuel) c
                = whileLoop page taskId cb fuel c')
       ∧ (Datatypes.S (scrollAttempts (locals c)) = maxScrollAttempts →
          ∀ fuel, whileLoop page taskId cb fuel c' = Returned c')).
Proof.
  intros Hh Hm Heq Hl Hguard c'.
  assert (loopBody page taskId cb c = (if clicked then Continue c' else Break c')) as Hbody.
  { unfold loopBody. rewrite Hh, Hm, Heq, Z.eqb_refl, Hl. reflexivity. }
  apply Nat.ltb_lt in Hguard.
  split; [exact Hbody|]. split.
  - intros ->. split.
    + intros fuel. cbn [whileLoop]. rewrite Hguard, Hbody. reflexivity.
    + destruct (finishScrape_completed c') as (p & Hp & Hs & _). eauto.
  - intros ->. split.
    + intros fuel. cbn [whileLoop]. rewrite Hguard, Hbody. reflexivity.
    + intros Hmax fuel.
      assert ((scrollAttempts (locals c') <? maxScrollAttempts)%nat = false) as Hno.
      { apply Nat.ltb_ge. subst c'. simpl. rewrite Hmax. done. }
      destruct fuel; cbn [whileLoop]; rewrite Hno; reflexivity.
Qed.

End WithPage.

Lemma growing_body tid cb (c : Config Z) :
  ∃ c', loopBody growingPage tid cb c = Continue c' ∧ scrollAttempts (locals c') = 0%nat.
Proof.
  unfold loopBody, harvestView, scrollAndMeasure. simpl.
  replace (pageState c + 1000 =? pageState c) with false by (symmetry; apply Z.eqb_neq; lia).
  eexists. split; reflexivity.
Qed.

Lemma growing_loop tid cb fuel : ∀ c : Config Z,
  scrollAttempts (locals c) = 0%nat →
  ∃ c', whileLoop growingPage tid cb fuel c = StillLooping c' ∧ scrollAttempts (locals c') = 0%nat.
Proof.
  induction fuel as [|fuel IH]; intros c Hc; simpl; rewrite Hc; simpl.
  - eauto.
  - destruct (growing_body tid cb c) as (c' & -> & Hc'). by apply IH.
Qed.

(** C1, evaluated on a page whose scroll height grows at every scroll: for
    every number of iterations, [collectImages] is still inside its loop
    after that many iterations, with [scrollAttempts] back at zero, so the
    bound [maxScrollAttempts] is never reached and nothing is returned. *)
Theorem growing_page_never_returns tid cb fuel h r :
  ∃ c, collectImages growingPage tid cb fuel h r = StillLooping c
       ∧ scrollAttempts (locals c) = 0%nat.
Proof. unfold collectImages. by apply growing_loop. Qed.

(** On the page that stalls with a button that always clicks, the loop is
    left after [maxScrollAttempts] iterations. *)
Example stalling_page_returns :
  ∃ c, collectImages stallingPage (lit "t") true 50 tt emptyRegistry = Returned c
       ∧ scrollAttempts (locals c) = 50%nat
       ∧ List.length (images (locals c)) = 1%nat.
Proof. vm_compute. eexists. split; [reflexivity|]. split; reflexivity. Qed.

(** The theorem of C5 at the first iteration on the stalling page. *)
Lemma stalled_iteration_witness :
  ∃ c', loopBody stallingPage (lit "t") true firstConfig = Continue c'
        ∧ scrollAttempts (locals c') = 1%nat.
Proof.
  set (h := harvestView stallingPage (lit "t") true firstConfig).
  assert (harvestView stallingPage (lit "t") true firstConfig
          = (h.1.1.1, h.1.1.2, h.1.2, h.2)) as Hh by (vm_compute; reflexivity).
  assert (scrollAndMeasure stallingPage h.2 = (1000, 1000, tt)) as Hm
    by (vm_compute; reflexivity).
  assert (evalLoadMore stallingPage tt = (true, tt)) as Hl by reflexivity.
  assert (scrollAttempts (locals firstConfig) < maxScrollAttempts)%nat as Hg
    by (vm_compute; lia).
  destruct (stalled_iteration stallingPage (lit "t") true firstConfig
              _ _ _ _ _ _ _ _ _ Hh Hm eq_refl Hl Hg) as [Hbody _].
  eexists. split; [exact Hbody | reflexivity].
Defined.

(** C5 as stated fails: on the stalling page the first iteration finds the
    height unchanged and the button clicked, and the counter is 1 after it,
    not reset to 0. *)
Lemma affordance_does_not_reset_counter :
  let h := harvestView stallingPage (lit "t") true firstConfig in
  let c' := mkConfig {| images := h.1.1.1; seenUrls := h.1.1.2;
                        previousHeight := 1000; scrollAttempts := 1 |} tt h.1.2 in
  scrollAndMeasure stallingPage h.2 = (1000, 1000, tt)
  ∧ evalLoadMore stallingPage tt = (true, tt)
  ∧ loopBody stallingPage (lit "t") true firstConfig = Continue c'
  ∧ scrollAttempts (locals c') ≠ 0%nat.
Proof.
  intros h c'. split; [vm_compute; reflexivity|]. split; [reflexivity|].
  split; [vm_compute; reflexivity | discriminate].
Qed.

End ScraperFacts.

(** ** Entry names *)

Module NameFacts.
Import Zip JSFacts.


Lemma map_plain p :
  Forall plain p → List.map (fun c => if isHostile c then underscore else c) p = p.
Proof.
  induction 1 as [|c p [Hc _] _ IH]; simpl; [done|]. by rewrite Hc, IH.
Qed.

Lemma collapse_plain p : ∀ rest,
  Forall plain p → collapseSpaces false (p ++ rest) = p ++ collapseSpaces false rest.
Proof.
  induction p as [|c p IH]; intros rest Hp; simpl; [done|].
  inversion Hp as [|? ? [_ Hc] Hp']; subst. by rewrite Hc, IH.
Qed.

Example sanitize_sample :
  sanitizeFilename (lit "..My  pin: a/b?.JPG") = lit "My-pin_-a_b_.JPG".
Proof. reflexivity. Qed.

Example extension_sample :
  getFileExtension (lit "https://i.pinimg.com/originals/ab/img.v2.JPG?x=1")
  = Some (lit "jpg").
Proof. reflexivity. Qed.

Example extension_none :
  getFileExtension (lit "https://i.pinimg.com/originals/ab/img") = None.
Proof. reflexivity. Qed.





End NameFacts.

(** ** Runs of [generateZip] *)

Module RunFacts.
Import Zip.

Lemma sameService_refl w : sameService w w.
Proof. by repeat split. Qed.

Lemma sameService_trans w1 w2 w3 :
  sameService w1 w2 → sameService w2 w3 → sameService w1 w3.
Proof. intros (?&?&?&?) (?&?&?&?). repeat split; congruence. Qed.

Lemma updateProgress_service tid u w : sameService w (updateProgress tid u w).
Proof. unfold updateProgress. destruct (_ !! _); by repeat split. Qed.

Lemma updateProgress_files tid u w : files (updateProgress tid u w) = files w.
Proof. unfold updateProgress. by destruct (_ !! _). Qed.

(** What [updateProgress] hands to the callback, when there is one. *)
Lemma updateProgress_delivered tid u w :
  delivered (updateProgress tid u w) =
  delivered w ++
  match progressCallbacks w !! tid with
  | Some cb =>
    [(cb, mergeProgress
            (default {| taskId := tid; progress := 0; status := Pending; message := MsgNone;
                        downloadedCount := 0; totalCount := 0 |} (getProgress tid w)) u)]
  | None => []
  end.
Proof. unfold updateProgress. destruct (_ !! _); simpl; by rewrite ?app_nil_r. Qed.

Lemma roundedShare_range count total scale :
  (0 < total)%nat → (count <= total)%nat → 0 <= scale →
  0 <= roundedShare count total scale <= scale.
Proof.
  intros Ht Hc Hs. unfold roundedShare. split.
  - apply Z.div_pos; nia.
  - apply Z.lt_succ_r, Z.div_lt_upper_bound; nia.
Qed.

Lemma bounded_nodup_length (l : list nat) n :
  NoDup l → (∀ i, i ∈ l → (i < n)%nat) → (List.length l <= n)%nat.
Proof.
  intros Hnd Hb. replace n with (List.length (seq 0 n)) by apply length_seq.
  apply NoDup_incl_length; [by apply NoDup_ListNoDup|].
  intros i Hi. apply in_seq. apply list_elem_of_In, Hb in Hi. lia.
Qed.

Section Run.

Variable tid : jsstring.
Variable imgs : list PinImage.
Variable path : jsstring.
Variable fetch : nat -> option (list N).
Variable w : World.
Hypothesis nonempty : (0 < List.length imgs)%nat.

(** What holds of the variables of [generateZip] from the creation of the
    output stream on; [w] is the world at the call. *)
Record RunInv (r : Run) : Prop := {
  ri_service : sameService w (world r);
  ri_file : files (world r) !! path = Some (archive r);
  ri_entries : List.length (archive r) = List.length (settledIdx r);
  ri_nodup : NoDup (settledIdx r);
  ri_bound : ∀ i, i ∈ settledIdx r → (i < List.length imgs)%nat;
  ri_count : (count r <= List.length (settledIdx r))%nat;
  ri_delivered : ∃ news, delivered (world r) = delivered w ++ news
                         ∧ Forall (λ op, phasePercent op.2) news
}.

Lemma count_le_total r : RunInv r → (count r <= List.length imgs)%nat.
Proof.
  intros [_ _ _ Hnd Hb Hc _]. pose proof (bounded_nodup_length _ _ Hnd Hb). lia.
Qed.

(** A step that only reports progress keeps the invariant when the report
    is right for its phase. *)
Lemma report_keeps r u :
  RunInv r →
  (∀ p, phasePercent (mergeProgress p u)) →
  RunInv {| archive := archive r; count := count r; settledIdx := settledIdx r;
            world := updateProgress tid u (world r) |}.
Proof.
  intros [Hs Hf He Hnd Hb Hc (news & Hd & Hg)] Hu. split; simpl; try done.
  - eapply sameService_trans; [exact Hs | apply updateProgress_service].
  - by rewrite updateProgress_files.
  - rewrite updateProgress_delivered, Hd, <- app_assoc. eexists. split; [done|].
    apply Forall_app. split; [done|].
    destruct (progressCallbacks (world r) !! tid); repeat constructor. apply Hu.
Qed.

Lemma announce_keeps index r : RunInv r → RunInv (announce tid imgs index r).
Proof.
  intros HI. apply report_keeps; [done|]. intros p. unfold phasePercent. simpl.
  split; [done|]. apply roundedShare_range; [done| by apply count_le_total |lia].
Qed.

Lemma onArchiveProgress_keeps r : RunInv r → RunInv (onArchiveProgress tid imgs r).
Proof.
  intros HI. apply report_keeps; [done|]. intros p. unfold phasePercent. simpl.
  split; [done|]. apply roundedShare_range; [done| by apply count_le_total |lia].
Qed.

Lemma onArchiveError_keeps e r : RunInv r → RunInv (onArchiveError tid imgs e r).
Proof. intros HI. by apply report_keeps. Qed.

Lemma onClose_keeps r : RunInv r → RunInv (onClose tid imgs r).
Proof. intros HI. by apply report_keeps. Qed.

Lemma settle_keeps index image r :
  imgs !! index = Some image → index ∉ settledIdx r →
  RunInv r → RunInv (settle path fetch index image r).
Proof.
  intros Hi Hnew [Hs Hf He Hnd Hb Hc Hd].
  assert (index < List.length imgs)%nat by (by eapply lookup_lt_Some).
  unfold settle, append. destruct (fetch index); split; simpl;
    rewrite ?lookup_insert_eq, ?length_app; simpl; try done; try lia.
  all: try (apply NoDup_app; split; [done|]; split; [|apply NoDup_singleton];
            intros x Hx Hx'; apply list_elem_of_singleton in Hx'; by subst).
  all: intros i [Hin| ->%list_elem_of_singleton]%elem_of_app; auto.
Qed.

Lemma announceAll_keeps l : ∀ index r,
  RunInv r → RunInv (announceAll tid imgs index l r).
Proof.
  induction l as [|x l IH]; intros index r HI; simpl; [done|].
  apply IH. by apply announce_keeps.
Qed.

Lemma announceAll_same l : ∀ index r,
  archive (announceAll tid imgs index l r) = archive r
  ∧ count (announceAll tid imgs index l r) = count r
  ∧ settledIdx (announceAll tid imgs index l r) = settledIdx r.
Proof.
  induction l as [|x l IH]; intros index r; simpl; [done|].
  destruct (IH (S index) (announce tid imgs index r)) as (-> & -> & ->). done.
Qed.

Lemma react_keeps events : ∀ r,
  RunInv r → RunInv (react tid imgs path fetch events r).1.
Proof.
  induction events as [|[index| |e] events IH]; intros r HI; simpl; [done|..].
  - destruct (imgs !! index) as [image|] eqn:Hi; [|by apply IH].
    case_bool_decide; [by apply IH|]. apply IH. by apply settle_keeps.
  - apply IH. by apply onArchiveProgress_keeps.
  - by apply onArchiveError_keeps.
Qed.

Lemma settle_settled index image r :
  settledIdx (settle path fetch index image r) = settledIdx r ++ [index].
Proof. unfold settle. by destruct (fetch index). Qed.

(** When every retrieval settles once and the archive reports no error,
    the events are processed to the end. *)
Lemma react_settles events : ∀ r,
  noArchiveError events →
  NoDup (settledIdx r ++ settles events) →
  (∀ i, i ∈ settles events → (i < List.length imgs)%nat) →
  (react tid imgs path fetch events r).2 = None
  ∧ settledIdx (react tid imgs path fetch events r).1 = settledIdx r ++ settles events.
Proof.
  induction events as [|[index| |e] events IH]; intros r Hne Hnd Hb; simpl.
  - by rewrite app_nil_r.
  - simpl in Hnd.
    destruct (lookup_lt_is_Some_2 imgs index) as [image Hi];
      [apply Hb; simpl; left|]. rewrite Hi.
    case_bool_decide as Hin.
    { apply NoDup_app in Hnd as (_ & Hd & _). exfalso. apply (Hd index Hin). left. }
    destruct (IH (settle path fetch index image r)) as [H1 H2].
    + intros e He. apply (Hne e). by right.
    + rewrite settle_settled, <- app_assoc. exact Hnd.
    + intros i Hi'. apply Hb. simpl. by right.
    + split; [done|]. by rewrite H2, settle_settled, <- app_assoc.
  - apply (IH (onArchiveProgress tid imgs r)); [|done..].
    intros e He. apply (Hne e). by right.
  - exfalso. apply (Hne e). left.
Qed.


Lemma startRun_inv : RunInv (startRun path w).
Proof.
  split; simpl.
  - by repeat split.
  - apply lookup_insert_eq.
  - done.
  - constructor.
  - intros i Hi. by apply elem_of_nil in Hi.
  - done.
  - exists []. by rewrite app_nil_r.
Qed.

Lemma finalRun_inv events : RunInv (finalRun tid imgs path fetch events w).1.
Proof. apply react_keeps, announceAll_keeps, startRun_inv. Qed.

Lemma finalRun_settles events :
  noArchiveError events → allSettleOnce events (List.length imgs) →
  (finalRun tid imgs path fetch events w).2 = None
  ∧ settledIdx (finalRun tid imgs path fetch events w).1 = settles events.
Proof.
  intros Hne Hall. unfold finalRun.
  destruct (announceAll_same imgs 0%nat (startRun path w)) as (_ & _ & Hs).
  destruct (react_settles events (announceAll tid imgs 0 imgs (startRun path w)))
    as [H1 H2]; [done| | |].
  - rewrite Hs. simpl. rewrite Hall. apply NoDup_seq.
  - intros i Hi. rewrite Hall in Hi. apply elem_of_seq in Hi. lia.
  - by rewrite H2, Hs.
Qed.


End Run.


End RunFacts.

(** ** Packaging calls *)

Module ZipFacts.
Import Zip RunFacts.

Lemma cleanupTask_removes tid w task :
  zipTasks w !! tid = Some task →
  zipTasks (cleanupTask tid w) !! tid = None
  ∧ progressCallbacks (cleanupTask tid w) !! tid = None
  ∧ files (cleanupTask tid w) !! outputPath task = None
  ∧ downloadDir (cleanupTask tid w) = downloadDir w
  ∧ delivered (cleanupTask tid w) = delivered w.
Proof.
  intros Ht. unfold cleanupTask. rewrite Ht.
  case_bool_decide as Hf; simpl; rewrite !lookup_delete_eq; repeat split; try done.
  destruct (files w !! outputPath task) eqn:E; [|done]. exfalso. apply Hf. eauto.
Qed.

Lemma scheduleCleanup_keeps now tid w :
  files (scheduleCleanup now tid w) = files w
  ∧ delivered (scheduleCleanup now tid w) = delivered w
  ∧ zipTasks (scheduleCleanup now tid w) = zipTasks w.
Proof.
  unfold scheduleCleanup. destruct (_ !! _); [|done]. by destruct (_ <? _).
Qed.

Lemma register_task tid task cb w :
  zipTasks (register tid task cb w) !! tid = Some task
  ∧ downloadDir (register tid task cb w) = downloadDir w
  ∧ delivered (register tid task cb w) = delivered w
  ∧ (∀ obs, cb = Some obs → progressCallbacks (register tid task cb w) !! tid = Some obs).
Proof.
  unfold register. destruct cb; simpl; rewrite lookup_insert_eq; repeat split; try done.
  intros obs [= ->]. apply lookup_insert_eq.
Qed.


Lemma filterImages_none (imgs : list PinImage) (ids : list jsstring) :
  imgs = [] ∨ (ids ≠ [] ∧ ∀ img, img ∈ imgs → id img ∉ ids) →
  filterImages imgs ids = [].
Proof.
  intros [->|[Hne Hnone]]; unfold filterImages.
  - by destruct ids.
  - destruct ids as [|i0 l] eqn:E; [done|]. rewrite <- E in *. clear E Hne.
    induction imgs as [|x xs IH]; simpl; [done|].
    rewrite bool_decide_eq_false_2 by (apply Hnone; left).
    apply IH. intros img Hin. apply Hnone. by right.
Qed.

Section Call.

Variables (env : CallEnv) (brd : jsstring) (imgs : list PinImage) (ids : list jsstring).
Variables (cb : option nat) (w : World).

Let tid := env_uuid env.
Let sel := filterImages imgs ids.
Let task := newTask env brd ids sel w.
Let w2 := register tid task cb w.
Let final := finalRun tid sel (zipPath w tid) (env_fetch env) (env_events env) w2.

(** [createZipArchive] by cases on the outcome of the run. *)
Lemma createZipArchive_unfold :
  sel ≠ [] →
  createZipArchive env brd imgs ids cb w =
  match final.2 with
  | Some err => (Rejected err, cleanupTask tid (world final.1))
  | None =>
    if Nat.eqb (List.length (settledIdx final.1)) (List.length sel)
    then (Fulfilled {| d_taskId := tid; downloadUrl := lit "/api/download/" ++ tid;
                       fileSize := env_size env; d_expiresAt := expiresAt task |},
          scheduleCleanup (env_scheduled env) tid (world (onClose tid sel final.1)))
    else (Unsettled, world final.1)
  end.
Proof.
  intros Hsel. unfold createZipArchive; cbv zeta.
  subst final w2 task tid. unfold sel in *. clear sel.
  destruct (filterImages imgs ids) as [|x l]; [done|].
  set (s := x :: l). set (tid := env_uuid env).
  set (task := newTask env brd ids s w). set (w2 := register tid task cb w).
  unfold generateZip.
  destruct (register_task tid task cb w) as (Ht & _). fold w2 in Ht. rewrite Ht.
  change (outputPath task) with (zipPath w tid).
  assert (0 < List.length s)%nat as Hpos by (simpl; lia).
  pose proof (finalRun_inv tid s (zipPath w tid) (env_fetch env) w2 Hpos (env_events env))
    as HI.
  destruct (finalRun tid s (zipPath w tid) (env_fetch env) (env_events env) w2)
    as [r [err|]]; simpl in *; [done|].
  destruct (_ =? _)%nat; [|done].
  pose proof (onClose_keeps tid s (zipPath w tid) w2 r HI) as [_ Hf _ _ _ _ _].
  simpl in Hf. by rewrite Hf.
Qed.

Lemma sel_positive : sel ≠ [] → (0 < List.length sel)%nat.
Proof. destruct sel; [done|simpl; lia]. Qed.






End Call.

(** C6. When the filtered images are empty, because there are no images or
    because a non-empty selection matches none of their ids,
    [createZipArchive] fails with 'No images selected for download' and the
    world is as before the call: no task record, no callback, no file. *)
Theorem empty_selection_rejected (env : CallEnv) (brd : jsstring) (imgs : list PinImage)
    (ids : list jsstring) (cb : option nat) (w : World) :
  imgs = [] ∨ (ids ≠ [] ∧ ∀ img, img ∈ imgs → id img ∉ ids) →
  createZipArchive env brd imgs ids cb w = (Rejected NoImagesSelected, w).
Proof.
  intros H. unfold createZipArchive; cbv zeta.
  by rewrite (filterImages_none imgs ids H).
Qed.


End ZipFacts.

(** ** The packaging theorems on the sample inputs *)

Module ZipWitnesses.
Import Zip RunFacts ZipFacts NameFacts.

(** Closed decidable side conditions are settled by evaluation. *)
Ltac by_decision :=
  unfold allSettleOnce; apply (bool_decide_unpack _); vm_compute; exact I.

Ltac no_error :=
  let e := fresh in let H := fresh in
  intros e H; repeat (apply elem_of_cons in H as [H|H]; [discriminate H|]);
  by apply elem_of_nil in H.




(** The theorem of C6 at a selection that matches no image. *)
Lemma empty_selection_rejected_witness :
  createZipArchive envAllRetrieved board [pinA; pinB] [lit "zz"] (Some 7%nat) freshWorld
  = (Rejected NoImagesSelected, freshWorld).
Proof.
  apply empty_selection_rejected. right. split; [discriminate|].
  apply Forall_forall. by_decision.
Defined.





End ZipWitnesses.

(** ** More on the harvest loop *)

Module ScraperMore.
Import Scraper ScraperFacts.

Lemma trim_orElse_truthy t d : truthy d = true → truthy (orElse t d) = true.
Proof. unfold orElse. by destruct (truthy t) eqn:E. Qed.

Lemma replaceTokenRun_truthy tok rep s :
  truthy rep = true → includes tok s = true → truthy (replaceTokenRun tok rep s) = true.
Proof.
  intros Hrep. induction s as [|c s IH]; simpl.
  - destruct (startsWith tok []); [|done]. intros _. by destruct rep.
  - destruct (startsWith tok (c :: s)); [|done]. intros _. by destruct rep.
Qed.

Lemma highResUrl_truthy src : truthy src = true → truthy (highResUrl src) = true.
Proof.
  intros Hs. unfold highResUrl.
  destruct (includes (lit "236x") src) eqn:E1; [by apply replaceTokenRun_truthy|].
  destruct (includes (lit "474x") src) eqn:E2; [by apply replaceTokenRun_truthy|done].
Qed.

Lemma wrapperSrc_truthy im src : wrapperSrc im = Some src → truthy src = true.
Proof.
  unfold wrapperSrc. destruct (truthy (img_src im)) eqn:E; [by intros [= <-]|].
  destruct (img_data_src im) as [d|]; [|done].
  destruct (truthy d) eqn:Ed; [by intros [= <-]|done].
Qed.

(** X1. Every image that [extractImagesFromPage] returns has a non-empty
    thumbnail, url and title, the id [pinWrapper], and the location of the
    page as its source. *)
Theorem extracted_image_fields href ws im :
  im ∈ extractImages href ws →
  thumbnail im ≠ [] ∧ url im ≠ [] ∧ title im ≠ []
  ∧ id im = lit "pinWrapper" ∧ source im = href.
Proof.
  unfold extractImages. intros (w & Hw & Hex)%list_elem_of_omap.
  unfold extractPin in Hex. destruct (w_img w) as [e|]; [|done].
  destruct (wrapperSrc e) as [src|] eqn:Hsrc; [|done].
  injection Hex as <-. simpl. apply wrapperSrc_truthy in Hsrc.
  pose proof (highResUrl_truthy src Hsrc) as Hu.
  assert (truthy (pinTitle w) = true) as Ht.
  { unfold pinTitle. destruct (w_titleText w); [by apply trim_orElse_truthy|done]. }
  repeat split; try done.
  - by destruct src.
  - by destruct (highResUrl src).
  - by destruct (pinTitle w).
Qed.

Lemma addUnique_prefix new : ∀ imgs seen, imgs `prefix_of` (addUnique new imgs seen).1.
Proof.
  induction new as [|im new IH]; intros imgs seen; simpl; [done|].
  case_bool_decide; [apply IH|].
  etransitivity; [|apply IH]. by apply prefix_app_r.
Qed.

Lemma addUnique_covers new : ∀ imgs seen,
  (∀ u, u ∈ seen → u ∈ url <$> imgs) →
  ∀ im, im ∈ new → url im ∈ url <$> (addUnique new imgs seen).1.
Proof.
  induction new as [|x new IH]; intros imgs seen Hs im Him; [by apply elem_of_nil in Him|].
  assert (∀ u, u ∈ url <$> imgs → u ∈ url <$> (addUnique (x :: new) imgs seen).1) as Hkeep.
  { intros u Hu. destruct (addUnique_prefix (x :: new) imgs seen) as [k ->].
    rewrite fmap_app. apply elem_of_app. by left. }
  simpl in *. apply elem_of_cons in Him as [->|Him].
  - case_bool_decide as Hseen.
    + by apply Hkeep, Hs.
    + destruct (addUnique_prefix new (imgs ++ [x]) ({[url x]} ∪ seen)) as [k ->].
      rewrite !fmap_app. simpl. set_solver.
  - case_bool_decide as Hseen; [by apply IH|].
    apply IH; [|done]. intros u. rewrite fmap_app, elem_of_app, elem_of_union,
      elem_of_singleton. simpl. rewrite list_elem_of_singleton. intros [->|Hu]; auto.
Qed.

Section MorePage.
Context {S : Type} (page : Page S) (taskId : jsstring) (cb : bool).

Lemma harvestView_images (c : Config S) :
  (harvestView page taskId cb c).1.1.1
  = (addUnique (extractImages (evalExtract page (pageState c)).1.2
                              (evalExtract page (pageState c)).1.1)
               (images (locals c)) (seenUrls (locals c))).1.
Proof.
  unfold harvestView. destruct (evalExtract page (pageState c)) as [[ws href] s1]. simpl.
  by destruct (addUnique _ _ _).
Qed.

Lemma loopBody_images (c : Config S) :
  match loopBody page taskId cb c with
  | Continue c' | Break c' => images (locals c') = (harvestView page taskId cb c).1.1.1
  end.
Proof.
  unfold loopBody. destruct (harvestView page taskId cb c) as [[[imgs seen] r] s].
  destruct (scrollAndMeasure page s) as [[prev cur] s5].
  destruct (cur =? prev); [|done]. by destruct (evalLoadMore page s5) as [[] s6].
Qed.

Lemma loopBody_prefix (c : Config S) :
  match loopBody page taskId cb c with
  | Continue c' | Break c' => images (locals c) `prefix_of` images (locals c')
  end.
Proof.
  pose proof (loopBody_images c) as H.
  destruct (loopBody page taskId cb c); rewrite H, harvestView_images; apply addUnique_prefix.
Qed.

Lemma whileLoop_prefix fuel : ∀ c : Config S,
  images (locals c) `prefix_of`
    images (locals (outcomeConfig (whileLoop page taskId cb fuel c))).
Proof.
  induction fuel as [|fuel IH]; intros c; simpl.
  - by destruct (_ <? _)%nat.
  - destruct (_ <? _)%nat; [|done].
    pose proof (loopBody_prefix c) as H.
    destruct (loopBody page taskId cb c) as [c'|c']; [|done].
    etransitivity; [exact H | apply IH].
Qed.

Lemma whileLoop_more fuel k : ∀ c : Config S,
  images (locals (outcomeConfig (whileLoop page taskId cb fuel c))) `prefix_of`
    images (locals (outcomeConfig (whileLoop page taskId cb (fuel + k) c))).
Proof.
  induction fuel as [|fuel IH]; intros c.
  - cbn [whileLoop Nat.add].
    destruct (_ <? _)%nat eqn:E.
    + apply whileLoop_prefix.
    + destruct k; simpl; by rewrite E.
  - cbn [whileLoop Nat.add]. destruct (_ <? _)%nat; [|done].
    destruct (loopBody page taskId cb c) as [c'|c']; [apply IH|done].
Qed.

(** X2. The collection only grows at its end: what [collectImages] has
    collected after some iterations is a prefix of what it has collected
    after more iterations, so images keep the order in which they were
    discovered and none is removed or moved. *)
Theorem collection_grows_at_the_end fuel k (s : S) (r : Registry) :
  images (locals (outcomeConfig (collectImages page taskId cb fuel s r))) `prefix_of`
    images (locals (outcomeConfig (collectImages page taskId cb (fuel + k) s r))).
Proof. unfold collectImages. apply whileLoop_more. Qed.

(** X3. Nothing shown is lost: when every url in [seenUrls] belongs to a
    collected image, then after one iteration of the loop the url of every
    image extracted from the view of that iteration belongs to a collected
    image. *)
Theorem view_is_collected (c : Config S) im :
  (∀ u, u ∈ seenUrls (locals c) → u ∈ url <$> images (locals c)) →
  im ∈ extractImages (evalExtract page (pageState c)).1.2
                     (evalExtract page (pageState c)).1.1 →
  match loopBody page taskId cb c with
  | Continue c' | Break c' => url im ∈ url <$> images (locals c')
  end.
Proof.
  intros Hs Him. pose proof (loopBody_images c) as H.
  destruct (loopBody page taskId cb c); rewrite H, harvestView_images;
    by apply addUnique_covers.
Qed.

(** A page whose scroll height is the same before and after every scroll. *)
Lemma stalled_body (c : Config S) :
  (∀ s, (scrollAndMeasure page s).1.2 = (scrollAndMeasure page s).1.1) →
  match loopBody page taskId cb c with
  | Continue c' | Break c' =>
    scrollAttempts (locals c') = Datatypes.S (scrollAttempts (locals c))
  end.
Proof.
  intros Hflat. unfold loopBody.
  destruct (harvestView page taskId cb c) as [[[imgs seen] r] s].
  specialize (Hflat s). destruct (scrollAndMeasure page s) as [[prev cur] s5].
  simpl in Hflat. subst cur. rewrite Z.eqb_refl.
  by destruct (evalLoadMore page s5) as [[] s6].
Qed.

Lemma stalled_loop_returns fuel : ∀ c : Config S,
  (∀ s, (scrollAndMeasure page s).1.2 = (scrollAndMeasure page s).1.1) →
  (maxScrollAttempts <= fuel + scrollAttempts (locals c))%nat →
  ∃ c', whileLoop page taskId cb fuel c = Returned c'
        ∧ (scrollAttempts (locals c') <= Nat.max maxScrollAttempts (scrollAttempts (locals c)))%nat.
Proof.
  unfold maxScrollAttempts.
  induction fuel as [|fuel IH]; intros c Hflat Hfuel; cbn [whileLoop];
    unfold maxScrollAttempts.
  - destruct (Nat.ltb_spec (scrollAttempts (locals c)) 50); [lia|].
    exists c. split; [done|lia].
  - destruct (Nat.ltb_spec (scrollAttempts (locals c)) 50) as [Hlt|Hge].
    + pose proof (stalled_body c Hflat) as Hb.
      destruct (loopBody page taskId cb c) as [c'|c'].
      * destruct (IH c' Hflat) as (c'' & -> & Hle); [lia|]. exists c''. split; [done|lia].
      * exists c'. split; [done|lia].
    + exists c. split; [done|lia].
Qed.

(** X4. On a page whose scroll height never changes, [collectImages]
    returns within [maxScrollAttempts] iterations, whether or not a
    load-more button keeps being clicked. *)
Theorem flat_page_is_left_within_the_cap fuel (s : S) (r : Registry) :
  (∀ s, (scrollAndMeasure page s).1.2 = (scrollAndMeasure page s).1.1) →
  (maxScrollAttempts <= fuel)%nat →
  ∃ c, collectImages page taskId cb fuel s r = Returned c
       ∧ (scrollAttempts (locals c) <= maxScrollAttempts)%nat.
Proof.
  intros Hflat Hfuel. unfold collectImages.
  edestruct (stalled_loop_returns fuel) as (c & -> & Hle); [exact Hflat| |].
  - simpl. lia.
  - exists c. split; [done|]. simpl in Hle. unfold maxScrollAttempts in *. lia.
Qed.

Lemma updateProgress_lookup tid u (r : Registry) :
  scrapingTasks (updateProgress tid u r) !! tid
  = Some (mergeProgress (default emptyProgress (scrapingTasks r !! tid)) u).
Proof. apply lookup_insert_eq. Qed.

Lemma notify_tasks tid (r : Registry) :
  scrapingTasks (notify cb tid r) = scrapingTasks r.
Proof. unfold notify. destruct cb; [|done]. by destruct (_ !! _). Qed.

(** What the registry holds for the task while the loop runs. *)
Let tracked (c : Config S) : Prop :=
  ∃ p, scrapingTasks (registry c) !! taskId = Some p
       ∧ status p = Scrolling
       ∧ (currentImages p <= totalImages p)%nat
       ∧ (images (locals c) = [] ∨ currentImages p = List.length (images (locals c))).

Lemma loopBody_tracked (c : Config S) :
  tracked c →
  match loopBody page taskId cb c with Continue c' | Break c' => tracked c' end.
Proof.
  intros (p & Hp & Hst & Hle & _).
  assert (∃ imgs seen r s, harvestView page taskId cb c = (imgs, seen, r, s)
          ∧ ∃ p', scrapingTasks r !! taskId = Some p' ∧ status p' = Scrolling
                  ∧ (currentImages p' <= totalImages p')%nat
                  ∧ currentImages p' = List.length imgs) as (imgs & seen & r & s & Hh & Hr).
  { unfold harvestView. destruct (evalExtract page (pageState c)) as [[ws href] s1].
    destruct (addUnique _ _ _) as [imgs seen]. eexists _, _, _, _. split; [done|].
    rewrite notify_tasks, updateProgress_lookup, Hp. simpl.
    eexists. split; [done|]. simpl. repeat split; [done|lia]. }
  unfold loopBody. rewrite Hh. destruct (scrollAndMeasure page s) as [[prev cur] s5].
  destruct Hr as (p' & H1 & H2 & H3 & H4).
  destruct (cur =? prev).
  - destruct (evalLoadMore page s5) as [[] s6]; exists p'; simpl; auto.
  - exists p'. simpl. auto.
Qed.

Lemma whileLoop_tracked fuel : ∀ c : Config S,
  tracked c → tracked (outcomeConfig (whileLoop page taskId cb fuel c)).
Proof.
  induction fuel as [|fuel IH]; intros c Hc; simpl.
  - by destruct (_ <? _)%nat.
  - destruct (_ <? _)%nat; [|done].
    pose proof (loopBody_tracked c Hc) as H.
    destruct (loopBody page taskId cb c) as [c'|c']; [by apply IH|done].
Qed.

(** X5. While [collectImages] runs, the registry record of its task has
    status [scrolling] and never counts more current images than total
    images (given that the record it started from did not); once images are
    collected, [currentImages] is their number. *)
Theorem progress_follows_the_collection fuel (s : S) (r : Registry) :
  (∀ p, scrapingTasks r !! taskId = Some p → (currentImages p <= totalImages p)%nat) →
  let c := outcomeConfig (collectImages page taskId cb fuel s r) in
  ∃ p, scrapingTasks (registry c) !! taskId = Some p
       ∧ status p = Scrolling
       ∧ (currentImages p <= totalImages p)%nat
       ∧ (images (locals c) = [] ∨ currentImages p = List.length (images (locals c))).
Proof.
  intros Hr. unfold collectImages. apply whileLoop_tracked.
  unfold tracked. simpl. rewrite notify_tasks, updateProgress_lookup.
  eexists. split; [done|]. simpl. split; [done|]. split; [|by left].
  destruct (scrapingTasks r !! taskId) as [p|] eqn:E; simpl; [by apply Hr|lia].
Qed.

End MorePage.

(** X6. The task registry: an update is read back merged into the
    previous record (or into an empty one), leaves the records of other
    tasks alone, and two updates in a row amount to one in which the later
    update wins field by field. *)
Theorem registry_updates_merge tid tid' u1 u2 (r : Registry) :
  tid' ≠ tid →
  Board.getScrapingProgress tid (updateProgress tid u1 r)
  = Some (mergeProgress (default emptyProgress (Board.getScrapingProgress tid r)) u1)
  ∧ Board.getScrapingProgress tid' (updateProgress tid u1 r)
    = Board.getScrapingProgress tid' r
  ∧ updateProgress tid u2 (updateProgress tid u1 r)
    = updateProgress tid (Board.laterUpdate u1 u2) r.
Proof.
  intros Hne. unfold Board.getScrapingProgress. split; [apply lookup_insert_eq|].
  split; [by apply lookup_insert_ne|].
  unfold updateProgress. simpl. rewrite lookup_insert_eq, insert_insert_eq. simpl.
  f_equal. f_equal. unfold mergeProgress, Board.laterUpdate. simpl.
  destruct u1 as [[] [] [] []], u2 as [[] [] [] []]; reflexivity.
Qed.

(** X1 at the pin that the stalling page shows. *)
Lemma extracted_image_fields_witness :
  thumbnail Board.sampleImage ≠ [] ∧ url Board.sampleImage ≠ []
  ∧ title Board.sampleImage ≠ [] ∧ id Board.sampleImage = lit "pinWrapper"
  ∧ source Board.sampleImage = lit "https://www.pinterest.com/u/b/".
Proof.
  apply (extracted_image_fields (lit "https://www.pinterest.com/u/b/")
           Board.sampleWrappers Board.sampleImage).
  vm_compute. constructor.
Defined.

(** X3 at the first iteration on the stalling page. *)
Lemma view_is_collected_witness :
  match loopBody stallingPage (lit "t") true firstConfig with
  | Continue c' | Break c' => url Board.sampleImage ∈ url <$> images (locals c')
  end.
Proof.
  apply (view_is_collected stallingPage (lit "t") true firstConfig Board.sampleImage).
  - intros u Hu. by apply elem_of_empty in Hu.
  - vm_compute. constructor.
Defined.

(** X4 on the stalling page. *)
Lemma flat_page_is_left_within_the_cap_witness :
  ∃ c, collectImages stallingPage (lit "t") true 50 tt emptyRegistry = Returned c
       ∧ (scrollAttempts (locals c) <= maxScrollAttempts)%nat.
Proof.
  apply (flat_page_is_left_within_the_cap stallingPage (lit "t") true 50 tt emptyRegistry).
  - intros []. reflexivity.
  - unfold maxScrollAttempts. lia.
Defined.

(** X5 from an empty registry on the stalling page. *)
Lemma progress_follows_the_collection_witness :
  let c := outcomeConfig (collectImages stallingPage (lit "t") true 3 tt emptyRegistry) in
  ∃ p, scrapingTasks (registry c) !! lit "t" = Some p
       ∧ status p = Scrolling
       ∧ (currentImages p <= totalImages p)%nat
       ∧ (images (locals c) = [] ∨ currentImages p = List.length (images (locals c))).
Proof.
  apply (progress_follows_the_collection stallingPage (lit "t") true 3 tt emptyRegistry).
  intros p Hp. unfold emptyRegistry in Hp. simpl in Hp. by rewrite lookup_empty in Hp.
Defined.

(** X6 on two updates of one task. *)
Lemma registry_updates_merge_witness :
  let u1 := {| u_currentImages := Some 3%nat; u_totalImages := None;
               u_status := Some Scrolling; u_message := None |} in
  let u2 := {| u_currentImages := Some 5%nat; u_totalImages := Some 5%nat;
               u_status := None; u_message := None |} in
  updateProgress (lit "t") u2 (updateProgress (lit "t") u1 emptyRegistry)
  = updateProgress (lit "t") (Board.laterUpdate u1 u2) emptyRegistry.
Proof.
  intros u1 u2.
  apply (registry_updates_merge (lit "t") (lit "other") u1 u2 emptyRegistry).
  discriminate.
Defined.

End ScraperMore.

(** ** URL validation *)

Module ValidatorFacts.
Import Validators.

Lemma pathParts_truthy path : Forall (λ part, truthy part = true) (pathParts path).
Proof.
  unfold pathParts. apply List.Forall_forall. intros part Hin.
  by apply filter_In in Hin as [_ Ht].
Qed.

Lemma withProtocol_idem url : withProtocol (withProtocol url) = withProtocol url.
Proof.
  unfold withProtocol. destruct (startsWith (lit "http") url) eqn:E.
  - by rewrite E.
  - reflexivity.
Qed.

(** X7. A URL is valid only when it parses (with [https://] put in front
    when it does not start with [http]), its host name contains
    [pinterest.com] and its first two non-empty path segments are made of
    letters, digits, [_] and [-]; the board id is then [user/board] from
    these two segments, whatever follows them in the path. *)
Theorem valid_url_structure (api : UrlApi) (url : jsstring) :
  isValid (validatePinterestUrl api url) = true →
  ∃ parsed user boardName rest,
    parseUrl api (withProtocol url) = Some parsed
    ∧ includes (lit "pinterest.com") (hostname api parsed) = true
    ∧ pathParts (pathname api parsed) = user :: boardName :: rest
    ∧ validPattern user = true ∧ validPattern boardName = true
    ∧ validatePinterestUrl api url
      = {| isValid := true; isPinterestUrl := true;
           boardId := Some (user ++ [slash] ++ boardName);
           username := Some user; errorMessage := None |}.
Proof.
  unfold validatePinterestUrl.
  destruct (parseUrl api (withProtocol url)) as [parsed|]; [|done].
  destruct (includes (lit "pinterest.com") (hostname api parsed)) eqn:Hh; [|done]. simpl.
  destruct (pathParts (pathname api parsed)) as [|user [|boardName rest]] eqn:Hp; [done..|].
  destruct (negb (truthy user) || negb (truthy boardName)); [done|].
  destruct (validPattern user) eqn:Hu; [|done].
  destruct (validPattern boardName) eqn:Hb; [|done]. simpl.
  intros _. by exists parsed, user, boardName, rest.
Qed.

Lemma rejected_message_truthy (api : UrlApi) (url : jsstring) :
  isValid (validatePinterestUrl api url) = false →
  ∃ msg, errorMessage (validatePinterestUrl api url) = Some msg ∧ truthy msg = true.
Proof.
  unfold validatePinterestUrl.
  destruct (parseUrl api (withProtocol url)) as [parsed|]; [|by eexists].
  destruct (includes (lit "pinterest.com") (hostname api parsed)); simpl; [|by eexists].
  destruct (pathParts (pathname api parsed)) as [|user [|boardName rest]]; [by eexists..|].
  destruct (negb (truthy user) || negb (truthy boardName)); [by eexists|].
  destruct (negb (validPattern user) || negb (validPattern boardName)); [by eexists|done].
Qed.

Lemma valid_board_id (api : UrlApi) (url : jsstring) :
  isValid (validatePinterestUrl api url) = true →
  ∃ bid, boardId (validatePinterestUrl api url) = Some bid.
Proof.
  unfold validatePinterestUrl.
  destruct (parseUrl api (withProtocol url)) as [parsed|]; [|done].
  destruct (includes (lit "pinterest.com") (hostname api parsed)); simpl; [|done].
  destruct (pathParts (pathname api parsed)) as [|user [|boardName rest]]; [done..|].
  destruct (negb (truthy user) || negb (truthy boardName)); [done|].
  destruct (negb (validPattern user) || negb (validPattern boardName)); [done|].
  by eexists.
Qed.

(** X8. A rejected URL carries no board id and one of four messages; the
    message 'Missing username or board name' is never produced, because empty
    path segments are filtered out before the check that would produce it. *)
Theorem rejected_url_message (api : UrlApi) (url : jsstring) :
  isValid (validatePinterestUrl api url) = false →
  boardId (validatePinterestUrl api url) = None
  ∧ username (validatePinterestUrl api url) = None
  ∧ errorMessage (validatePinterestUrl api url)
    ∈ [ Some (lit "Invalid URL format"); Some (lit "URL must be from pinterest.com");
        Some (lit "Invalid Pinterest board URL format");
        Some (lit "Username or board name contains invalid characters") ].
Proof.
  unfold validatePinterestUrl.
  destruct (parseUrl api (withProtocol url)) as [parsed|]; [|intros _; set_solver].
  destruct (includes (lit "pinterest.com") (hostname api parsed)); simpl;
    [|intros _; set_solver].
  pose proof (pathParts_truthy (pathname api parsed)) as Ht.
  destruct (pathParts (pathname api parsed)) as [|user [|boardName rest]];
    [intros _; set_solver..|].
  inversion Ht as [|? ? Hu Ht']; subst. inversion Ht' as [|? ? Hb _]; subst.
  rewrite Hu, Hb. simpl.
  destruct (negb (validPattern user) || negb (validPattern boardName)); [|done].
  intros _. set_solver.
Qed.

(** A URL that does not start with [http] is validated as the same
    URL with [https://] in front. *)
Theorem protocol_is_added (api : UrlApi) (url : jsstring) :
  startsWith (lit "http") url = false →
  validatePinterestUrl api url = validatePinterestUrl api (lit "https://" ++ url).
Proof.
  intros Hs. unfold validatePinterestUrl.
  replace (lit "https://" ++ url) with (withProtocol url) by (unfold withProtocol; by rewrite Hs).
  by rewrite withProtocol_idem.
Qed.

(** The host name is only searched for [pinterest.com]. *)
Example foreign_host_accepted :
  isValid (validatePinterestUrl sampleUrlApi
             (lit "https://pinterest.com.example.org/user/board")) = true.
Proof. reflexivity. Qed.

(** X7 on a board URL with a query. *)
Lemma valid_url_structure_witness :
  boardId (validatePinterestUrl sampleUrlApi (lit "www.pinterest.com/user/my-board/pins?x=1"))
  = Some (lit "user/my-board").
Proof.
  destruct (valid_url_structure sampleUrlApi (lit "www.pinterest.com/user/my-board/pins?x=1"))
    as (parsed & user & boardName & rest & Hp & _ & Hparts & _ & _ & ->); [reflexivity|].
  vm_compute in Hp. injection Hp as <-. vm_compute in Hparts.
  injection Hparts as <- <- _. reflexivity.
Defined.

(** X8 on a profile URL. *)
Lemma rejected_url_message_witness :
  errorMessage (validatePinterestUrl sampleUrlApi (lit "https://pinterest.com/user/"))
  ∈ [ Some (lit "Invalid URL format"); Some (lit "URL must be from pinterest.com");
      Some (lit "Invalid Pinterest board URL format");
      Some (lit "Username or board name contains invalid characters") ].
Proof.
  apply (rejected_url_message sampleUrlApi (lit "https://pinterest.com/user/")).
  reflexivity.
Defined.

(** [protocol_is_added] on a URL without protocol. *)
Lemma protocol_is_added_witness :
  validatePinterestUrl sampleUrlApi (lit "pinterest.com/user/board")
  = validatePinterestUrl sampleUrlApi (lit "https://pinterest.com/user/board").
Proof.
  apply (protocol_is_added sampleUrlApi (lit "pinterest.com/user/board")). reflexivity.
Defined.

End ValidatorFacts.

(** ** [scrapeBoard] *)

Module BoardFacts.
Import Scraper Validators Board ScraperFacts ScraperMore ValidatorFacts.

Section WithBrowser.

Context {S : Type}.
Variable api : UrlApi.
Variable toLowerCase : jsstring -> jsstring.
Variable browser : Browser S.
Variable taskId : jsstring.
Variable cb : bool.


(** X9. A board URL that does not validate is refused before anything
    else happens: [scrapeBoard] throws the message of the validation and the
    task registry is as before, without a record for the new task. *)
Theorem invalid_url_is_refused fuel (boardUrl : jsstring) (r : Registry) :
  isValid (validatePinterestUrl api (normalizePinterestUrl api boardUrl)) = false →
  ∃ msg, errorMessage (validatePinterestUrl api (normalizePinterestUrl api boardUrl))
         = Some msg
         ∧ scrapeBoard api toLowerCase browser taskId cb fuel boardUrl r = (Threw msg, r).
Proof.
  intros Hv. destruct (rejected_message_truthy _ _ Hv) as (msg & Hm & Ht).
  exists msg. split; [done|]. unfold scrapeBoard. cbv zeta. rewrite Hv, Hm. simpl.
  unfold orElse. by rewrite Ht.
Qed.


Lemma private_board_threw fuel (boardUrl : jsstring) (r : Registry) s0 s1 :
  isValid (validatePinterestUrl api (normalizePinterestUrl api boardUrl)) = true →
  launchBrowser browser = None →
  openPage browser = inr s0 →
  goto browser (normalizePinterestUrl api boardUrl) s0 = (None, s1) →
  isBoardPrivate toLowerCase (pageContent browser s1).1 = true →
  ∃ r', scrapeBoard api toLowerCase browser taskId cb fuel boardUrl r
        = (Threw (lit "This board appears to be private or requires login"), r').
Proof.
  intros Hv Hl Ho Hg Hp. unfold scrapeBoard. cbv zeta. rewrite Hv, Hl, Ho, Hg. simpl.
  destruct (pageContent browser s1) as [html s2]. simpl in Hp. rewrite Hp. by eexists.
Qed.

(** A board whose content shows one of the private-board indicators
    is never scraped: [scrapeBoard] throws 'This board appears to be private
    or requires login' whatever the iteration budget. *)
Theorem private_board_is_not_scraped fuel (boardUrl : jsstring) (r : Registry) s0 s1 :
  isValid (validatePinterestUrl api (normalizePinterestUrl api boardUrl)) = true →
  launchBrowser browser = None →
  openPage browser = inr s0 →
  goto browser (normalizePinterestUrl api boardUrl) s0 = (None, s1) →
  isBoardPrivate toLowerCase (pageContent browser s1).1 = true →
  (scrapeBoard api toLowerCase browser taskId cb fuel boardUrl r).1
  = Threw (lit "This board appears to be private or requires login").
Proof.
  intros Hv Hl Ho Hg Hp.
  destruct (private_board_threw fuel boardUrl r s0 s1 Hv Hl Ho Hg Hp) as [r' ->]. done.
Qed.

(** X11. On a public board whose page height never changes, [scrapeBoard]
    returns: the images have pairwise different urls, [totalImages] is their
    number, the board id is the one of the validation, and the registry
    record of the task is [completed] with current and total images equal to
    that number. *)
Theorem flat_board_is_scraped fuel (boardUrl : jsstring) (r : Registry) s0 s1 :
  isValid (validatePinterestUrl api (normalizePinterestUrl api boardUrl)) = true →
  launchBrowser browser = None →
  openPage browser = inr s0 →
  goto browser (normalizePinterestUrl api boardUrl) s0 = (None, s1) →
  isBoardPrivate toLowerCase (pageContent browser s1).1 = false →
  (∀ s, (scrollAndMeasure (pageOf browser) s).1.2
        = (scrollAndMeasure (pageOf browser) s).1.1) →
  (maxScrollAttempts <= fuel)%nat →
  ∃ res r',
    scrapeBoard api toLowerCase browser taskId cb fuel boardUrl r = (Done res, r')
    ∧ NoDup (url <$> r_images res)
    ∧ r_totalImages res = List.length (r_images res)
    ∧ r_taskId res = taskId
    ∧ boardId (validatePinterestUrl api (normalizePinterestUrl api boardUrl))
      = Some (r_boardId res)
    ∧ ∃ p, getScrapingProgress taskId r' = Some p
           ∧ status p = Completed
           ∧ currentImages p = r_totalImages res
           ∧ totalImages p = r_totalImages res.
Proof.
  intros Hv Hl Ho Hg Hp Hflat Hfuel.
  destruct (valid_board_id api _ Hv) as (bid & Hbid).
  unfold scrapeBoard. cbv zeta. rewrite Hv, Hl, Ho, Hg. simpl.
  destruct (pageContent browser s1) as [html s2]. simpl in Hp. rewrite Hp.
  destruct (evalBoardDom browser (waitForPins browser s2)) as [dom s4].
  unfold collectImages.
  match goal with |- context [whileLoop ?pg ?t ?c ?f ?c0] =>
    destruct (stalled_loop_returns pg t c f c0 Hflat) as (c' & Hret & _);
      [simpl; lia|];
    pose proof (whileLoop_Inv pg t c f c0 Inv_init) as HI;
    rewrite Hret in *
  end.
  simpl in HI. destruct HI as [Hnd _ _].
  destruct (finishScrape_completed taskId cb c') as (p & Hp1 & Hp2 & Hp3 & Hp4).
  eexists _, _. split; [reflexivity|]. simpl.
  split; [exact Hnd|]. split; [done|]. split; [done|].
  split; [by rewrite Hbid|]. exists p. by rewrite Hp3, Hp4.
Qed.

End WithBrowser.

Lemma sample_url_valid :
  isValid (validatePinterestUrl sampleUrlApi (normalizePinterestUrl sampleUrlApi sampleUrl))
  = true.
Proof. reflexivity. Qed.

(** X9 on a URL of another site. *)
Lemma invalid_url_is_refused_witness :
  scrapeBoard sampleUrlApi asciiLower (sampleBrowser []) (lit "t") true 60
    (lit "https://example.org/user/board") emptyRegistry
  = (Threw (lit "URL must be from pinterest.com"), emptyRegistry).
Proof.
  destruct (invalid_url_is_refused sampleUrlApi asciiLower (sampleBrowser []) (lit "t") true
              60 (lit "https://example.org/user/board") emptyRegistry)
    as (msg & Hm & ->); [reflexivity|].
  vm_compute in Hm. injection Hm as <-. reflexivity.
Defined.

(** [private_board_is_not_scraped] on a page that asks to log in. *)
Lemma private_board_is_not_scraped_witness :
  (scrapeBoard sampleUrlApi asciiLower (sampleBrowser (lit "<p>Login to view</p>"))
     (lit "t") true 60 sampleUrl emptyRegistry).1
  = Threw (lit "This board appears to be private or requires login").
Proof.
  apply (private_board_is_not_scraped sampleUrlApi asciiLower
           (sampleBrowser (lit "<p>Login to view</p>")) (lit "t") true 60 sampleUrl
           emptyRegistry tt tt); reflexivity.
Defined.


(** X11 on the sample browser. *)
Lemma flat_board_is_scraped_witness :
  ∃ res r',
    scrapeBoard sampleUrlApi asciiLower (sampleBrowser (lit "<p>pins</p>"))
      (lit "t") true 50 sampleUrl emptyRegistry = (Done res, r')
    ∧ NoDup (url <$> r_images res)
    ∧ r_totalImages res = List.length (r_images res)
    ∧ r_taskId res = lit "t"
    ∧ boardId (validatePinterestUrl sampleUrlApi
                 (normalizePinterestUrl sampleUrlApi sampleUrl)) = Some (r_boardId res)
    ∧ ∃ p, getScrapingProgress (lit "t") r' = Some p
           ∧ status p = Completed
           ∧ currentImages p = r_totalImages res
           ∧ totalImages p = r_totalImages res.
Proof.
  apply (flat_board_is_scraped sampleUrlApi asciiLower (sampleBrowser (lit "<p>pins</p>"))
           (lit "t") true 50 sampleUrl emptyRegistry tt tt);
    first [reflexivity | unfold maxScrollAttempts; lia].
Defined.

End BoardFacts.

(** ** More on file names *)

Module NameMore.
Import Zip JSFacts NameFacts.

Lemma collapse_shape s : ∀ inRun,
  Forall (λ c, isHostile c = false) s → Forall plain (collapseSpaces inRun s).
Proof.
  induction s as [|c s IH]; intros inRun Hs; simpl; [constructor|].
  inversion Hs as [|? ? Hc Hs']; subst.
  destruct (isSpace c) eqn:E.
  - destruct inRun; [by apply IH|]. constructor; [by split|by apply IH].
  - constructor; [by split|by apply IH].
Qed.

Lemma collapse_head c s :
  c ≠ dot → ∃ c' s', collapseSpaces false (c :: s) = c' :: s' ∧ c' ≠ dot.
Proof.
  intros Hc. simpl. destruct (isSpace c); eexists _, _; split; try reflexivity; done.
Qed.

Lemma dropDots_head s :
  dropWhile (fun c => N.eqb c dot) s = []
  ∨ ∃ c s', dropWhile (fun c => N.eqb c dot) s = c :: s' ∧ c ≠ dot.
Proof.
  induction s as [|c s IH]; simpl; [by left|].
  destruct (N.eqb_spec c dot); [exact IH|]. right. by exists c, s.
Qed.

Lemma dropWhile_Forall (P : N → Prop) f s : Forall P s → Forall P (dropWhile f s).
Proof.
  induction 1 as [|c s Hc Hs IH]; simpl; [constructor|].
  destruct (f c); [exact IH|by constructor].
Qed.

(** The shape of a sanitized name. *)
Lemma sanitize_shape filename :
  (List.length (sanitizeFilename filename) <= 100)%nat
  ∧ Forall plain (sanitizeFilename filename)
  ∧ ∀ rest, sanitizeFilename filename ≠ dot :: rest.
Proof.
  unfold sanitizeFilename, substring0.
  set (s1 := List.map _ filename).
  assert (Forall (λ c, isHostile c = false) s1) as H1.
  { apply List.Forall_forall. intros c (x & <- & _)%in_map_iff.
    by destruct (isHostile x) eqn:E. }
  set (s2 := dropWhile _ s1).
  assert (Forall (λ c, isHostile c = false) s2) as H2 by by apply dropWhile_Forall.
  split; [apply firstn_le_length|]. split.
  - apply Forall_take, collapse_shape, H2.
  - intros rest E. destruct (dropDots_head s1) as [Hnil|(c & s' & Hc & Hne)]; [fold s2 in Hnil|fold s2 in Hc].
    + rewrite Hnil in E. discriminate.
    + rewrite Hc in E. destruct (collapse_head c s' Hne) as (c' & s'' & Hcol & Hne').
      rewrite Hcol in E. simpl in E. congruence.
Qed.

(** A name that is already in shape is left as it is. *)
Lemma sanitize_fixed s :
  (List.length s <= 100)%nat → Forall plain s → (∀ rest, s ≠ dot :: rest) →
  sanitizeFilename s = s.
Proof.
  intros Hlen Hp Hd. unfold sanitizeFilename, substring0.
  rewrite (map_plain _ Hp).
  assert (dropWhile (fun c => N.eqb c dot) s = s) as ->.
  { destruct s as [|c s']; [done|]. simpl. destruct (N.eqb_spec c dot); [|done].
    subst. by destruct (Hd s'). }
  pose proof (collapse_plain s [] Hp) as Hc. rewrite !app_nil_r in Hc. simpl in Hc.
  rewrite Hc. by apply firstn_all2.
Qed.


(** X13. Sanitizing twice is sanitizing once. *)
Theorem sanitize_idempotent (filename : jsstring) :
  sanitizeFilename (sanitizeFilename filename) = sanitizeFilename filename.
Proof.
  destruct (sanitize_shape filename) as (H1 & H2 & H3). by apply sanitize_fixed.
Qed.

Lemma takeWhile_Forall f s : Forall (λ c, f c = true) (takeWhile f s).
Proof.
  induction s as [|c s IH]; simpl; [constructor|].
  destruct (f c) eqn:E; [by constructor|constructor].
Qed.

(** X14. An extension found in a URL is never empty and consists of digits
    and lower-case letters only; a URL without a dot has none. *)
Theorem extension_shape (u : jsstring) :
  (∀ ext, getFileExtension u = Some ext →
     ext ≠ [] ∧ Forall (λ c, (48 <= c <= 57)%N ∨ (97 <= c <= 122)%N) ext)
  ∧ (dot ∉ u → getFileExtension u = None).
Proof.
  split.
  - induction u as [|c rest IH]; intros ext; simpl; [done|].
    destruct (N.eqb c dot); [|exact (IH ext)].
    destruct (truthy (takeWhile isAlnum rest) && _) eqn:E; [|exact (IH ext)].
    intros [= <-]. apply andb_true_iff in E as [Ht _]. split.
    + by destruct (takeWhile isAlnum rest).
    + apply List.Forall_map. eapply Forall_impl; [apply takeWhile_Forall|].
      intros x Hx. simpl in Hx. unfold isAlnum, toLower in *.
      destruct (N.leb_spec 65 x), (N.leb_spec x 90), (N.leb_spec 48 x),
        (N.leb_spec x 57), (N.leb_spec 97 x), (N.leb_spec x 122);
        simpl in *; try discriminate; lia.
  - induction u as [|c rest IH]; intros Hd; simpl; [done|].
    destruct (N.eqb_spec c dot) as [->|_]; [exfalso; apply Hd; left|].
    apply IH. intros H. apply Hd. by right.
Qed.

(** X15. The placeholders of different positions have different names. *)
Theorem placeholder_names_differ (i j : nat) :
  i ≠ j → placeholderName i ≠ placeholderName j.
Proof.
  intros Hij E. unfold placeholderName in E. apply app_inv_head in E.
  change (lit ".txt") with (dot :: lit "txt") in E.
  apply digits_before_dot in E; [|apply decimal_digits..].
  apply decimal_inj in E. lia.
Qed.

(** X14 on the URL of a pin. *)
Lemma extension_shape_witness :
  getFileExtension (lit "https://i.pinimg.com/originals/ab/one.JPG?v=2") = Some (lit "jpg")
  ∧ getFileExtension (lit "https://localhost/originals/one") = None.
Proof.
  destruct (extension_shape (lit "https://i.pinimg.com/originals/ab/one.JPG?v=2")) as [H _].
  destruct (H (lit "jpg")) as [_ _]; [reflexivity|].
  destruct (extension_shape (lit "https://localhost/originals/one")) as [_ H'].
  split; [reflexivity|]. apply H'.
  intros Hin. vm_compute in Hin.
  repeat (apply elem_of_cons in Hin as [Hin|Hin]; [discriminate Hin|]).
  by apply elem_of_nil in Hin.
Defined.

(** X15 on the first two positions. *)
Lemma placeholder_names_differ_witness : placeholderName 0 ≠ placeholderName 1.
Proof. apply placeholder_names_differ. discriminate. Defined.

End NameMore.

(** ** More on packaging calls *)

Module ZipMore.
Import Zip RunFacts ZipFacts.

Lemma cleanupTask_unknown tid w : zipTasks w !! tid = None → cleanupTask tid w = w.
Proof. intros H. unfold cleanupTask. by rewrite H. Qed.

Lemma cleanupTask_files tid w task :
  zipTasks w !! tid = Some task →
  files (cleanupTask tid w) = delete (outputPath task) (files w).
Proof.
  intros H. unfold cleanupTask. rewrite H. case_bool_decide as Hf; simpl; [done|].
  symmetry. apply delete_id. destruct (files w !! outputPath task) eqn:E; [|done].
  exfalso. apply Hf. eauto.
Qed.

Lemma cleanupTask_tasks tid w :
  zipTasks (cleanupTask tid w) = delete tid (zipTasks w)
  ∧ progressCallbacks (cleanupTask tid w)
    = match zipTasks w !! tid with
      | Some _ => delete tid (progressCallbacks w)
      | None => progressCallbacks w
      end.
Proof.
  unfold cleanupTask. destruct (zipTasks w !! tid) eqn:E.
  - by case_bool_decide.
  - split; [|done]. symmetry. by apply delete_id.
Qed.

(** X16. Reclaiming is idempotent and local: [cleanupTask] of a task
    without record changes nothing, doing it twice is doing it once, and the
    records and callbacks of other tasks, and the files at other paths than
    the output path of the task, stay as they are. *)
Theorem cleanupTask_idempotent_and_local tid tid' path w :
  tid' ≠ tid →
  (∀ task, zipTasks w !! tid = Some task → path ≠ outputPath task) →
  (zipTasks w !! tid = None → cleanupTask tid w = w)
  ∧ cleanupTask tid (cleanupTask tid w) = cleanupTask tid w
  ∧ zipTasks (cleanupTask tid w) !! tid' = zipTasks w !! tid'
  ∧ progressCallbacks (cleanupTask tid w) !! tid' = progressCallbacks w !! tid'
  ∧ files (cleanupTask tid w) !! path = files w !! path.
Proof.
  intros Hne Hpath. split; [apply cleanupTask_unknown|]. split.
  { apply cleanupTask_unknown. destruct (cleanupTask_tasks tid w) as [-> _].
    apply lookup_delete_eq. }
  destruct (cleanupTask_tasks tid w) as [-> ->].
  split; [by apply lookup_delete_ne|]. split.
  - destruct (zipTasks w !! tid); [by apply lookup_delete_ne|done].
  - destruct (zipTasks w !! tid) as [task|] eqn:E.
    + rewrite (cleanupTask_files tid w task E). apply lookup_delete_ne.
      intros Heq. by apply (Hpath task eq_refl).
    + by rewrite cleanupTask_unknown.
Qed.

(** X17. After an expired download has been refused, the task is unknown:
    a second request for its stream fails with 'Download task not found',
    at whatever time it comes. *)
Theorem expired_then_unknown now now' tid w task :
  zipTasks w !! tid = Some task → expiresAt task < now →
  getDownloadStream now tid w = (Rejected DownloadExpired, cleanupTask tid w)
  ∧ getDownloadStream now' tid (cleanupTask tid w)
    = (Rejected DownloadTaskNotFound, cleanupTask tid w).
Proof.
  intros Ht Hexp. unfold getDownloadStream. rewrite Ht.
  apply Z.ltb_lt in Hexp. rewrite Hexp. split; [done|].
  destruct (cleanupTask_tasks tid w) as [-> _]. by rewrite lookup_delete_eq.
Qed.

Lemma scheduleCleanup_rest now tid w :
  zipTasks (scheduleCleanup now tid w) = zipTasks w
  ∧ progressCallbacks (scheduleCleanup now tid w) = progressCallbacks w
  ∧ files (scheduleCleanup now tid w) = files w
  ∧ downloadDir (scheduleCleanup now tid w) = downloadDir w.
Proof.
  unfold scheduleCleanup. destruct (_ !! _); [|done]. by destruct (_ <? _).
Qed.

Section Elsewhere.

Variables (tid : jsstring) (imgs : list PinImage) (path : jsstring).
Variable fetch : nat -> option (list N).

(** Files at other paths than the output path are not touched by a run. *)
Lemma react_elsewhere events other : ∀ r,
  other ≠ path →
  files (world (react tid imgs path fetch events r).1) !! other = files (world r) !! other.
Proof.
  intros r Hne. revert r.
  induction events as [|[index| |e] events IH]; intros r; simpl; [done|..].
  - destruct (imgs !! index) as [image|]; [|apply IH].
    case_bool_decide; [apply IH|]. rewrite IH.
    unfold settle, append. destruct (fetch index); simpl; by rewrite lookup_insert_ne.
  - rewrite IH. simpl. by rewrite updateProgress_files.
  - by rewrite updateProgress_files.
Qed.

Lemma announceAll_files l : ∀ index r,
  files (world (announceAll tid imgs index l r)) = files (world r).
Proof.
  induction l as [|x l IH]; intros index r; simpl; [done|].
  rewrite IH. simpl. apply updateProgress_files.
Qed.

Lemma finalRun_elsewhere events w other :
  other ≠ path →
  files (world (finalRun tid imgs path fetch events w).1) !! other = files w !! other.
Proof.
  intros Hne. unfold finalRun. rewrite react_elsewhere, announceAll_files by done.
  simpl. by apply lookup_insert_ne.
Qed.

(** Updates of the downloading phase that report nothing downloaded. *)
Let idle (op : nat * ZipProgress) : Prop :=
  status op.2 = Downloading → progress op.2 = 0 ∧ downloadedCount op.2 = 0%nat.

Lemma roundedShare_zero total scale : roundedShare 0 total scale = 0.
Proof.
  unfold roundedShare. simpl. destruct total as [|n]; [done|].
  apply Z.div_small. lia.
Qed.

Lemma announceAll_idle l : ∀ index r news w,
  count r = 0%nat →
  delivered (world r) = delivered w ++ news → Forall idle news →
  ∃ news', delivered (world (announceAll tid imgs index l r)) = delivered w ++ news'
           ∧ Forall idle news'.
Proof.
  induction l as [|x l IH]; intros index r news w Hc Hd Hi; simpl; [eauto|].
  eapply (IH _ (announce tid imgs index r)); [done| |].
  - simpl. rewrite updateProgress_delivered, Hd, <- app_assoc. reflexivity.
  - apply Forall_app. split; [done|].
    destruct (progressCallbacks (world r) !! tid); [apply Forall_singleton|constructor].
    unfold idle. intros _. simpl. rewrite Hc. split; [apply roundedShare_zero|done].
Qed.

Lemma react_idle events : ∀ r news w,
  delivered (world r) = delivered w ++ news → Forall idle news →
  ∃ news', delivered (world (react tid imgs path fetch events r).1) = delivered w ++ news'
           ∧ Forall idle news'.
Proof.
  induction events as [|[index| |e] events IH]; intros r news w Hd Hi; simpl; [eauto|..].
  - destruct (imgs !! index) as [image|]; [|by eapply IH].
    case_bool_decide; [by eapply IH|]. eapply IH; [|exact Hi].
    unfold settle, append. by destruct (fetch index).
  - eapply (IH (onArchiveProgress tid imgs r)).
    + simpl. rewrite updateProgress_delivered, Hd, <- app_assoc. reflexivity.
    + apply Forall_app. split; [done|].
      destruct (progressCallbacks (world r) !! tid); [apply Forall_singleton|constructor].
      unfold idle. simpl. by intros [=].
  - rewrite updateProgress_delivered, Hd, <- app_assoc. eexists. split; [done|].
    apply Forall_app. split; [done|].
    destruct (progressCallbacks (world r) !! tid); [apply Forall_singleton|constructor].
      unfold idle. simpl. by intros [=].
Qed.

Lemma finalRun_idle events w :
  ∃ news, delivered (world (finalRun tid imgs path fetch events w).1) = delivered w ++ news
          ∧ Forall idle news
          ∧ ∃ news', delivered (world (onClose tid imgs (finalRun tid imgs path fetch events w).1))
                     = delivered w ++ news' ∧ Forall idle news'.
Proof.
  unfold finalRun.
  destruct (announceAll_idle imgs 0%nat (startRun path w) [] w) as (n1 & H1 & H1');
    [done|by rewrite app_nil_r|constructor|].
  destruct (react_idle events _ n1 w H1 H1') as (n2 & H2 & H2').
  exists n2. split; [done|]. split; [done|].
  simpl. rewrite updateProgress_delivered, H2, <- app_assoc. eexists. split; [done|].
  apply Forall_app. split; [done|].
  destruct (progressCallbacks _ !! tid); [apply Forall_singleton|constructor].
  unfold idle. simpl. by intros [=].
Qed.

(** When the archive reports an error, the events before it are processed
    and the promise is rejected with that error. *)
Lemma react_error pre e post : ∀ r,
  noArchiveError pre →
  react tid imgs path fetch (pre ++ ArchiveError e :: post) r
  = (onArchiveError tid imgs e (react tid imgs path fetch pre r).1, Some (ArchiveFailure e)).
Proof.
  induction pre as [|[index| |e'] pre IH]; intros r Hne; simpl; [done|..].
  - assert (noArchiveError pre) by (intros x Hx; apply (Hne x); by right).
    destruct (imgs !! index); [|by apply IH]. case_bool_decide; by apply IH.
  - apply IH. intros x Hx. apply (Hne x). by right.
  - exfalso. apply (Hne e'). left.
Qed.

End Elsewhere.

Section Call.

Variables (env : CallEnv) (brd : jsstring) (imgs : list PinImage) (ids : list jsstring).
Variables (cb : option nat) (w : World).

Let tid := env_uuid env.
Let sel := filterImages imgs ids.
Let task := newTask env brd ids sel w.
Let w2 := register tid task cb w.
Let final := finalRun tid sel (zipPath w tid) (env_fetch env) (env_events env) w2.
Let out := createZipArchive env brd imgs ids cb w.

Lemma register_elsewhere tid' :
  tid' ≠ tid →
  zipTasks w2 !! tid' = zipTasks w !! tid'
  ∧ progressCallbacks w2 !! tid' = progressCallbacks w !! tid'.
Proof.
  intros Hne. unfold w2, register.
  destruct cb; simpl; rewrite ?lookup_insert_ne; done.
Qed.

Lemma final_service :
  sel ≠ [] →
  sameService w2 (world final.1) ∧ sameService w2 (world (onClose tid sel final.1)).
Proof.
  intros Hsel.
  pose proof (finalRun_inv tid sel (zipPath w tid) (env_fetch env) w2 (sel_positive env brd imgs ids cb w Hsel)
                (env_events env)) as HI. fold final in HI.
  pose proof (onClose_keeps tid sel (zipPath w tid) w2 _ HI) as HC.
  split; [apply HI|apply HC].
Qed.

(** X18. A packaging call touches only its own task: whatever its
    outcome, the records and callbacks of other task ids and the files at
    other paths than its output path are as before the call. *)
Theorem other_tasks_are_untouched tid' path :
  tid' ≠ env_uuid env → path ≠ zipPath w (env_uuid env) →
  zipTasks out.2 !! tid' = zipTasks w !! tid'
  ∧ progressCallbacks out.2 !! tid' = progressCallbacks w !! tid'
  ∧ files out.2 !! path = files w !! path
  ∧ downloadDir out.2 = downloadDir w.
Proof.
  intros Hne Hpath. unfold out.
  destruct (decide (sel = [])) as [Hnil|Hsel].
  { unfold createZipArchive; cbv zeta. fold sel. by rewrite Hnil. }
  rewrite (createZipArchive_unfold env brd imgs ids cb w Hsel).
  destruct (final_service Hsel) as [(Hd & Ht & Hc & _) (Hd' & Ht' & Hc' & _)].
  destruct (register_elsewhere tid' Hne) as [Hr1 Hr2].
  assert (files w2 = files w) as Hfw by (unfold w2, register; by destruct cb).
  assert (downloadDir w2 = downloadDir w) as Hdw by (unfold w2, register; by destruct cb).
  pose proof (finalRun_elsewhere tid sel (zipPath w tid) (env_fetch env) (env_events env)
                w2 path Hpath) as Hfe. fold final in Hfe.
  assert (zipTasks (world final.1) !! tid = Some task) as Htask.
  { rewrite Ht. apply register_task. }
  fold tid sel task w2 final.
  destruct final.2 as [err|]; cbn [snd].
  - destruct (cleanupTask_tasks tid (world final.1)) as [-> ->]. rewrite Htask.
    rewrite !lookup_delete_ne by done. rewrite Ht, Hc, Hr1, Hr2.
    rewrite (cleanupTask_files _ _ _ Htask), lookup_delete_ne by done.
    rewrite Hfe, Hfw.
    destruct (cleanupTask_removes tid (world final.1) task Htask) as (_ & _ & _ & -> & _).
    by rewrite Hd.
  - destruct (_ =? _)%nat; cbn [snd].
    + destruct (scheduleCleanup_rest (env_scheduled env) tid
                  (world (onClose tid sel final.1))) as (-> & -> & -> & ->).
      rewrite Ht', Hc', Hd', Hr1, Hr2. simpl. by rewrite updateProgress_files, Hfe, Hfw.
    + by rewrite Ht, Hc, Hd, Hr1, Hr2, Hfe, Hfw.
Qed.

(** X19. During a packaging call every update of the downloading phase
    reports 0 percent and no downloaded image: the updates of that phase
    are all issued before the first retrieval settles. *)
Theorem downloading_reports_nothing :
  ∃ news, delivered out.2 = delivered w ++ news
          ∧ Forall (λ op, status op.2 = Downloading →
                          progress op.2 = 0 ∧ downloadedCount op.2 = 0%nat) news.
Proof.
  unfold out. destruct (decide (sel = [])) as [Hnil|Hsel].
  { unfold createZipArchive; cbv zeta. fold sel. rewrite Hnil. exists [].
    by rewrite app_nil_r. }
  rewrite (createZipArchive_unfold env brd imgs ids cb w Hsel).
  destruct (finalRun_idle tid sel (zipPath w tid) (env_fetch env) (env_events env) w2)
    as (n1 & H1 & H1' & n2 & H2 & H2'). fold final in H1, H2.
  assert (delivered w2 = delivered w) as Hd by apply register_task.
  rewrite Hd in H1, H2.
  assert (zipTasks (world final.1) !! tid = Some task) as Htask.
  { destruct (final_service Hsel) as [(_ & -> & _) _]. apply register_task. }
  fold tid sel task w2 final.
  destruct final.2 as [err|]; cbn [snd].
  - destruct (cleanupTask_removes tid (world final.1) task Htask) as (_ & _ & _ & _ & ->).
    eauto.
  - destruct (_ =? _)%nat; cbn [snd]; [|eauto].
    destruct (scheduleCleanup_keeps (env_scheduled env) tid
                (world (onClose tid sel final.1))) as (_ & -> & _). eauto.
Qed.

(** What a fulfilled call leaves behind. *)
Lemma fulfilled_world :
  sel ≠ [] →
  noArchiveError (env_events env) →
  allSettleOnce (env_events env) (List.length sel) →
  ∃ info w',
    out = (Fulfilled info, w')
    ∧ info = {| d_taskId := tid; downloadUrl := lit "/api/download/" ++ tid;
                fileSize := env_size env; d_expiresAt := env_now env + retention |}
    ∧ zipTasks w' !! tid = Some task
    ∧ files w' !! zipPath w tid = Some (archive final.1)
    ∧ timers w' = timers w ++ (if 0 <? env_now env + retention - env_scheduled env
                               then [(env_now env + retention - env_scheduled env, tid)]
                               else []).
Proof.
  intros Hsel Hne Hall. unfold out.
  rewrite (createZipArchive_unfold env brd imgs ids cb w Hsel).
  fold tid sel task w2 final.
  pose proof (sel_positive env brd imgs ids cb w Hsel) as Hpos.
  destruct (finalRun_settles tid sel (zipPath w tid) (env_fetch env) w2 Hpos
              (env_events env) Hne Hall) as [Hnone Hset]. fold final in Hnone, Hset.
  assert (List.length (settledIdx final.1) = List.length sel) as Hn.
  { rewrite Hset, Hall. apply length_seq. }
  rewrite Hnone, Hn, Nat.eqb_refl.
  destruct (final_service Hsel) as [_ (Hd' & Ht' & Hc' & Htm)].
  pose proof (finalRun_inv tid sel (zipPath w tid) (env_fetch env) w2 Hpos
                (env_events env)) as HI. fold final in HI.
  pose proof (onClose_keeps tid sel (zipPath w tid) w2 _ HI) as [_ Hf _ _ _ _ _].
  assert (zipTasks (world (onClose tid sel final.1)) !! tid = Some task) as Htask.
  { rewrite Ht'. apply register_task. }
  assert (timers w2 = timers w) as Htw by (unfold w2, register; by destruct cb).
  eexists _, _. split; [reflexivity|]. split; [done|].
  unfold scheduleCleanup. rewrite Htask. change (expiresAt task) with (env_now env + retention).
  destruct (0 <? _); simpl in *.
  - rewrite updateProgress_files in *. repeat split; try done.
    + destruct (updateProgress_service tid
        {| u_progress := Some 100; u_status := Some Completed; u_message := Some MsgCreated;
           u_downloadedCount := Some (List.length sel);
           u_totalCount := Some (List.length sel) |} (world final.1)) as (_ & _ & _ & ->).
      destruct HI as [(_ & _ & _ & ->) _ _ _ _ _ _]. by rewrite Htw.
  - rewrite updateProgress_files in *. repeat split; try done.
    rewrite app_nil_r. congruence.
Qed.

Lemma fulfilled_tasks :
  sel ≠ [] →
  noArchiveError (env_events env) →
  allSettleOnce (env_events env) (List.length sel) →
  zipTasks out.2 = <[tid := task]> (zipTasks w).
Proof.
  intros Hsel Hne Hall.
  destruct (fulfilled_world Hsel Hne Hall) as (info & w' & E & _).
  unfold out in *. rewrite (createZipArchive_unfold env brd imgs ids cb w Hsel) in E.
  rewrite (createZipArchive_unfold env brd imgs ids cb w Hsel).
  fold tid sel task w2 final in E |- *.
  destruct final.2; [done|]. destruct (_ =? _)%nat; [|done]. cbn [snd].
  destruct (scheduleCleanup_rest (env_scheduled env) tid
              (world (onClose tid sel final.1))) as (-> & _).
  destruct (final_service Hsel) as [_ (_ & -> & _)].
  unfold w2, register. by destruct cb.
Qed.



(** The reclaim timer of a finished archive is set for its expiry:
    the stored task expires 24 hours after the call, and when that is still
    ahead at the time of scheduling, exactly one timer is added, whose delay
    ends at the expiry time. *)
Theorem reclaim_timer_ends_at_expiry :
  filterImages imgs ids ≠ [] →
  noArchiveError (env_events env) →
  allSettleOnce (env_events env) (List.length (filterImages imgs ids)) →
  env_scheduled env < env_now env + retention →
  ∃ task' delay,
    zipTasks out.2 !! env_uuid env = Some task'
    ∧ expiresAt task' = env_now env + 86400000
    ∧ images task' = filterImages imgs ids
    ∧ timers out.2 = timers w ++ [(delay, env_uuid env)]
    ∧ env_scheduled env + delay = expiresAt task'.
Proof.
  intros Hsel Hne Hall Hsched.
  destruct (fulfilled_world Hsel Hne Hall) as (info & w' & -> & _ & Ht & _ & Htm).
  exists task, (env_now env + retention - env_scheduled env). cbn [snd].
  split; [done|]. split; [done|]. split; [done|].
  rewrite Htm. replace (0 <? _) with true by (symmetry; apply Z.ltb_lt; lia).
  split; [done|]. simpl. lia.
Qed.

(** X22. An error of the archive fails the call with that error: whatever
    the retrievals did before, [createZipArchive] is rejected with the error
    that the archive reported first, and the last update handed to the
    callback reports [failed] with 0 percent. *)
Theorem archive_error_fails_the_call pre e post :
  filterImages imgs ids ≠ [] →
  env_events env = pre ++ ArchiveError e :: post →
  noArchiveError pre →
  out.1 = Rejected (ArchiveFailure e)
  ∧ ∀ obs, cb = Some obs →
      ∃ p, last (delivered out.2) = Some (obs, p) ∧ status p = Failed ∧ progress p = 0.
Proof.
  intros Hsel Hev Hne. unfold out.
  rewrite (createZipArchive_unfold env brd imgs ids cb w Hsel).
  fold tid sel task w2. unfold finalRun. rewrite Hev, react_error by done.
  cbn [fst snd]. split; [done|]. intros obs Hobs.
  set (r := (react _ _ _ _ pre _).1).
  assert (RunInv sel (zipPath w tid) w2 r) as HI.
  { apply react_keeps; [by apply sel_positive|].
    apply announceAll_keeps; [by apply sel_positive|]. apply startRun_inv. }
  destruct HI as [(_ & Ht & Hc & _) _ _ _ _ _ _].
  assert (zipTasks (world (onArchiveError tid sel e r)) !! tid = Some task) as Htask.
  { simpl. destruct (updateProgress_service tid
      {| u_progress := Some 0; u_status := Some Failed;
         u_message := Some (MsgCreationFailed e); u_downloadedCount := Some 0%nat;
         u_totalCount := Some (List.length sel) |} (world r)) as (_ & -> & _).
    rewrite Ht. apply register_task. }
  destruct (cleanupTask_removes tid _ task Htask) as (_ & _ & _ & _ & ->).
  simpl. rewrite updateProgress_delivered, Hc.
  destruct (register_task tid task cb w) as (_ & _ & _ & Hreg). fold w2 in Hreg.
  rewrite (Hreg obs Hobs), last_snoc. eexists. split; [reflexivity|]. done.
Qed.

End Call.

Lemma extracted_ids href ws :
  Forall (λ im, id im = lit "pinWrapper") (Scraper.extractImages href ws).
Proof.
  apply Forall_forall. intros im (wr & _ & Hex)%list_elem_of_omap.
  unfold Scraper.extractPin in Hex. destruct (Scraper.w_img wr); [|done].
  destruct (Scraper.wrapperSrc _); [|done]. by injection Hex as <-.
Qed.

(** X23. Harvested images cannot be told apart by id: the images that
    [extractImagesFromPage] returns all carry the id [pinWrapper], so a
    non-empty selection keeps all of them when it contains that id and none of
    them otherwise. *)
Theorem harvested_selection_is_all_or_none href ws (ids : list jsstring) :
  ids ≠ [] →
  let harvested := Scraper.extractImages href ws in
  (lit "pinWrapper" ∈ ids → filterImages harvested ids = harvested)
  ∧ (lit "pinWrapper" ∉ ids → filterImages harvested ids = []).
Proof.
  intros Hne harvested. pose proof (extracted_ids href ws) as Hid. fold harvested in Hid.
  unfold filterImages. destruct ids as [|i0 l] eqn:E; [done|]. rewrite <- E in *. clear E Hne.
  split; intros Hin; induction Hid as [|im rest Him _ IH]; simpl; try done.
  - rewrite Him, bool_decide_eq_true_2 by done. by rewrite IH.
  - by rewrite Him, bool_decide_eq_false_2.
Qed.

End ZipMore.

(** ** The additional packaging theorems on the sample inputs *)

Module ZipMoreWitnesses.
Import Zip RunFacts ZipFacts ZipMore ZipWitnesses.

(** X16 on the served world. *)
Lemma cleanupTask_idempotent_and_local_witness :
  cleanupTask (lit "3f2b8c1e") (cleanupTask (lit "3f2b8c1e") servedWorld)
  = cleanupTask (lit "3f2b8c1e") servedWorld.
Proof.
  apply (cleanupTask_idempotent_and_local (lit "3f2b8c1e") (lit "other") (lit "elsewhere")
           servedWorld).
  - discriminate.
  - intros task Ht. vm_compute in Ht. injection Ht as <-. vm_compute. discriminate.
Defined.

(** X17 on the served world. *)
Lemma expired_then_unknown_witness :
  getDownloadStream 7000 (lit "3f2b8c1e") (cleanupTask (lit "3f2b8c1e") servedWorld)
  = (Rejected DownloadTaskNotFound, cleanupTask (lit "3f2b8c1e") servedWorld).
Proof.
  apply (expired_then_unknown 6000 7000 (lit "3f2b8c1e") servedWorld expiringTask).
  - vm_compute. reflexivity.
  - vm_compute. reflexivity.
Defined.

(** X18 on a call in a world that already serves another archive. *)
Lemma other_tasks_are_untouched_witness :
  let out := createZipArchive (sampleEnv (fun _ => None) [Settle 0]) board [pinA] []
               None Lifecycle.twoTaskWorld in
  zipTasks out.2 !! lit "77aa01bc" = zipTasks Lifecycle.twoTaskWorld !! lit "77aa01bc"
  ∧ files out.2 !! zipPath freshWorld (lit "77aa01bc")
    = files Lifecycle.twoTaskWorld !! zipPath freshWorld (lit "77aa01bc").
Proof.
  intros out.
  destruct (other_tasks_are_untouched (sampleEnv (fun _ => None) [Settle 0]) board [pinA] []
              None Lifecycle.twoTaskWorld (lit "77aa01bc")
              (zipPath freshWorld (lit "77aa01bc"))) as (H1 & _ & H3 & _).
  - vm_compute. discriminate.
  - vm_compute. discriminate.
  - split; [exact H1|exact H3].
Defined.



(** [reclaim_timer_ends_at_expiry] on the same call. *)
Lemma reclaim_timer_ends_at_expiry_witness :
  timers (createZipArchive envAllRetrieved board [pinA; pinB] [] None freshWorld).2
  = [(86399500, env_uuid envAllRetrieved)].
Proof.
  destruct (reclaim_timer_ends_at_expiry envAllRetrieved board [pinA; pinB] [] None
              freshWorld) as (task' & delay & _ & He & _ & Ht & Hd).
  - discriminate.
  - no_error.
  - by_decision.
  - vm_compute. reflexivity.
  - rewrite Ht. rewrite He in Hd. simpl in Hd.
    assert (delay = 86399500) as -> by lia. reflexivity.
Defined.

(** X22 on a call whose archive fails after the first entry. *)
Lemma archive_error_fails_the_call_witness :
  (createZipArchive envArchiveError board [pinA; pinB] [] (Some 7%nat) freshWorld).1
  = Rejected (ArchiveFailure (lit "write EPIPE")).
Proof.
  apply (archive_error_fails_the_call envArchiveError board [pinA; pinB] [] (Some 7%nat)
           freshWorld [Settle 0] (lit "write EPIPE") [Settle 1]).
  - discriminate.
  - reflexivity.
  - no_error.
Defined.

(** X23 on the pin of the stalling page. *)
Lemma harvested_selection_is_all_or_none_witness :
  filterImages (Scraper.extractImages board Board.sampleWrappers) [lit "abc"] = [].
Proof.
  apply (harvested_selection_is_all_or_none board Board.sampleWrappers [lit "abc"]).
  - discriminate.
  - intros Hin. apply list_elem_of_singleton in Hin. discriminate.
Defined.

End ZipMoreWitnesses.

(** ** Retention *)

Module LifecycleFacts.
Import Zip RunFacts ZipFacts ZipMore Lifecycle.

Lemma cleanupAll_cons a ids w :
  cleanupAll (a :: ids) w = cleanupAll ids (cleanupTask a w).
Proof. reflexivity. Qed.

Lemma cleanupAll_tasks ids : ∀ w tid,
  zipTasks (cleanupAll ids w) !! tid
  = if bool_decide (tid ∈ ids) then None else zipTasks w !! tid.
Proof.
  induction ids as [|a ids IH]; intros w tid.
  - by rewrite bool_decide_eq_false_2 by apply not_elem_of_nil.
  - rewrite cleanupAll_cons, IH. destruct (cleanupTask_tasks a w) as [-> _].
    case_bool_decide as H1; case_bool_decide as H2; try done.
    + exfalso. apply H2. by right.
    + apply elem_of_cons in H2 as [->|?]; [|done]. apply lookup_delete_eq.
    + apply lookup_delete_ne. intros ->. apply H2. left.
Qed.







Lemma elem_of_expiredTasks now w tid :
  tid ∈ expiredTasks now w ↔ ∃ task, zipTasks w !! tid = Some task ∧ expiresAt task < now.
Proof.
  unfold expiredTasks. rewrite list_elem_of_fmap. split.
  - intros ([k t] & -> & Hin). apply elem_of_map_to_list, map_lookup_filter_Some in Hin.
    simpl in *. by exists t.
  - intros (task & Ht & He). exists (tid, task). split; [done|].
    by apply elem_of_map_to_list, map_lookup_filter_Some.
Qed.


(** X25. Sweeping twice at the same time is sweeping once. *)
Theorem cleanupExpired_idempotent now w :
  cleanupExpired now (cleanupExpired now w) = cleanupExpired now w.
Proof.
  assert (expiredTasks now (cleanupExpired now w) = []) as Hnone.
  { destruct (expiredTasks now (cleanupExpired now w)) as [|tid l] eqn:E; [done|].
    assert (tid ∈ expiredTasks now (cleanupExpired now w)) as Hin by (rewrite E; left).
    apply elem_of_expiredTasks in Hin as (task & Ht & He).
    unfold cleanupExpired in Ht. rewrite cleanupAll_tasks in Ht.
    case_bool_decide as Hin; [done|]. exfalso. apply Hin, elem_of_expiredTasks. eauto. }
  unfold cleanupExpired at 1. by rewrite Hnone.
Qed.

Section WithSize.

Variable sizeOf : list Entry -> Z.

(** X26. The statistics follow the records: [totalSize] is never negative
    when file sizes are not, reclaiming a recorded task lowers [activeTasks]
    by one, and a finished packaging call under a task id that was not on
    record raises it by one. *)
Theorem stats_follow_the_records tid task env brd imgs ids cb w :
  (∀ content, 0 <= sizeOf content) →
  zipTasks w !! tid = Some task →
  zipTasks w !! env_uuid env = None →
  filterImages imgs ids ≠ [] →
  noArchiveError (env_events env) →
  allSettleOnce (env_events env) (List.length (filterImages imgs ids)) →
  0 <= totalSize (getStats sizeOf w)
  ∧ activeTasks (getStats sizeOf w)
    = Datatypes.S (activeTasks (getStats sizeOf (cleanupTask tid w)))
  ∧ activeTasks (getStats sizeOf (createZipArchive env brd imgs ids cb w).2)
    = Datatypes.S (activeTasks (getStats sizeOf w)).
Proof.
  intros Hsize Ht Hfresh Hsel Hne Hall. split; [|split].
  - unfold getStats. simpl.
    apply (map_fold_weak_ind (λ r _, 0 <= r)); [done|].
    intros i x m r _ Hr. unfold taskSize. destruct (files w !! outputPath x); [|lia].
    specialize (Hsize l). lia.
  - unfold getStats. simpl. destruct (cleanupTask_tasks tid w) as [-> _].
    rewrite map_size_delete, Ht.
    assert (size (zipTasks w) ≠ 0%nat); [|lia].
    intros Hz. apply map_size_empty_iff in Hz. rewrite Hz in Ht. by rewrite lookup_empty in Ht.
  - unfold getStats. simpl.
    rewrite (fulfilled_tasks env brd imgs ids cb w Hsel Hne Hall).
    by apply map_size_insert_None.
Qed.

End WithSize.


(** X26 on the served world and a call under another task id, with every
    file counted as 10 bytes. *)
Lemma stats_follow_the_records_witness :
  let env := {| env_uuid := lit "5d0c47aa"; env_now := 1000; env_created := 1000;
                env_scheduled := 1500; env_fetch := fun _ => None;
                env_events := [Settle 0]; env_size := 64 |} in
  activeTasks (getStats (fun _ => 10) servedWorld) = 1%nat
  ∧ activeTasks (getStats (fun _ => 10)
                   (createZipArchive env board [pinA] [] None servedWorld).2) = 2%nat.
Proof.
  intros env.
  destruct (stats_follow_the_records (fun _ => 10) (lit "3f2b8c1e") expiringTask env board
              [pinA] [] None servedWorld) as (_ & H2 & H3).
  - intros _. lia.
  - vm_compute. reflexivity.
  - vm_compute. reflexivity.
  - discriminate.
  - ZipWitnesses.no_error.
  - ZipWitnesses.by_decision.
  - rewrite H3. split; [|f_equal]; vm_compute; reflexivity.
Defined.

End LifecycleFacts.

(** ** The HTTP controller *)

Module ControllerFacts.
Import Scraper Validators Board Zip RunFacts ZipFacts ValidatorFacts BoardFacts Controller.

(** X27. The download route answers 404 when the task has no record or
    its file is missing, 410 when the task has expired, and otherwise 200 with
    the content of the file; it never answers 500. *)
Theorem download_status_codes (now : Z) (tid : jsstring) (w : World) :
  (zipTasks w !! tid = None →
     (serveDownload now tid w).1
     = {| code := 404; body := ErrorBody (lit "Download not found") |})
  ∧ (∀ task, zipTasks w !! tid = Some task → expiresAt task < now →
       (serveDownload now tid w).1
       = {| code := 410; body := ErrorBody (lit "Download has expired") |})
  ∧ (∀ task, zipTasks w !! tid = Some task → now <= expiresAt task →
       (serveDownload now tid w).1
       = match files w !! outputPath task with
         | Some content => {| code := 200; body := FileBody content |}
         | None => {| code := 404; body := ErrorBody (lit "Download not found") |}
         end)
  ∧ code (serveDownload now tid w).1 ≠ 500%nat.
Proof.
  unfold serveDownload, getDownloadStream.
  destruct (zipTasks w !! tid) as [task|] eqn:Ht.
  - destruct (Z.ltb_spec (expiresAt task) now) as [He|He].
    + repeat split; try done. intros t [= <-] Hl. lia.
    + destruct (files w !! outputPath task) as [content|] eqn:Hf.
      * repeat split; try done.
        -- intros t [= <-] Hl. lia.
        -- intros t [= <-] _. by rewrite Hf.
      * repeat split; try done.
        -- intros t [= <-] Hl. lia.
        -- intros t [= <-] _. by rewrite Hf.
  - repeat split; done.
Qed.

(** X28. The download-creation route never creates an archive: it passes
    an empty list of images to the service, so with a board id it always
    answers 400 'No images selected for download', whatever ids were
    selected, and the service is left as it was; without a board id it
    answers 400 'Board ID is required'. *)
Theorem create_download_always_refuses (env : CallEnv) (boardId : option jsstring)
    (imageIds : option (list jsstring)) (w : World) :
  createDownload env boardId imageIds w
  = ({| code := 400;
        body := ErrorBody (match boardId with
                           | Some b => if truthy b
                                       then lit "No images selected for download"
                                       else lit "Board ID is required"
                           | None => lit "Board ID is required"
                           end) |}, w).
Proof.
  unfold createDownload. destruct boardId as [b|]; [|done].
  destruct (truthy b); [|done]. simpl.
  unfold createZipArchive; cbv zeta.
  by rewrite (filterImages_none [] (default [] imageIds)) by by left.
Qed.

(** X29. The progress route looks at the scraper first: for a task with
    a scraping record it answers 200 with a percent between 0 and 100 (when
    the record counts no more current than total images) and the status
    [completed], [failed] or [processing]; for a packaging task it answers
    the stub of the packaging service; for an unknown id it answers 404. *)
Theorem progress_route (tid : jsstring) (r : Registry) (w : World) :
  (∀ p, getScrapingProgress tid r = Some p →
     (currentImages p <= totalImages p)%nat →
     ∃ resp, getProgress tid r w = {| code := 200; body := ScrapeProgressBody resp |}
             ∧ 0 <= p_progress resp <= 100
             ∧ p_downloadedCount resp = currentImages p
             ∧ (p_status resp = PCompleted ↔ Scraper.status p = Scraper.Completed)
             ∧ (p_status resp = PFailed ↔ Scraper.status p = Scraper.Failed))
  ∧ (getScrapingProgress tid r = None →
     getProgress tid r w
     = match zipTasks w !! tid with
       | Some task =>
         {| code := 200;
            body := ZipProgressBody
                      {| taskId := tid; progress := 0; status := Pending;
                         message := MsgPreparing; downloadedCount := 0;
                         totalCount := List.length (Zip.images task) |} |}
       | None => {| code := 404; body := ErrorBody (lit "Task not found") |}
       end).
Proof.
  unfold getProgress. split.
  - intros p -> Hle. eexists. split; [reflexivity|]. simpl. split.
    + unfold scrapePercent. apply roundedShare_range; lia.
    + split; [done|]. destruct (Scraper.status p); simpl; split; done.
  - intros ->. unfold Zip.getProgress. by destruct (zipTasks w !! tid).
Qed.

Section Route.

Context {S : Type}.
Variable api : UrlApi.
Variable toLowerCase : jsstring -> jsstring.
Variable browser : Browser S.
Variable taskId : jsstring.

(** X30. The scrape route refuses a missing or invalid URL with 400
    before the scraper is called, so the task registry is as before; and
    it answers 403 for a board whose page shows a private-board indicator. *)
Theorem scrape_route_refusals fuel (url : option jsstring) (r : Registry) :
  (default [] url = [] →
     scrapeBoardRoute api toLowerCase browser taskId fuel url r
     = ({| code := 400; body := ErrorBody (lit "URL is required") |}, r))
  ∧ (∀ u, url = Some u → u ≠ [] → isValid (validatePinterestUrl api u) = false →
       ∃ msg, errorMessage (validatePinterestUrl api u) = Some msg
              ∧ scrapeBoardRoute api toLowerCase browser taskId fuel url r
                = ({| code := 400; body := ErrorBody msg |}, r))
  ∧ (∀ u s0 s1, url = Some u → u ≠ [] →
       isValid (validatePinterestUrl api u) = true →
       isValid (validatePinterestUrl api (normalizePinterestUrl api u)) = true →
       launchBrowser browser = None →
       openPage browser = inr s0 →
       goto browser (normalizePinterestUrl api u) s0 = (None, s1) →
       isBoardPrivate toLowerCase (pageContent browser s1).1 = true →
       (scrapeBoardRoute api toLowerCase browser taskId fuel url r).1
       = {| code := 403; body := ErrorBody (lit "This board is private or requires login") |}).
Proof.
  split; [|split].
  - intros Hu. unfold scrapeBoardRoute. destruct url as [u|]; [|done].
    simpl in Hu. by subst.
  - intros u -> Hne Hv. destruct (rejected_message_truthy _ _ Hv) as (msg & Hm & Ht).
    exists msg. split; [done|]. unfold scrapeBoardRoute.
    destruct u; [done|]. cbn [truthy negb]. cbv zeta. rewrite Hv, Hm. simpl.
    unfold orElse. by rewrite Ht.
  - intros u s0 s1 -> Hne Hv Hv' Hl Ho Hg Hp. unfold scrapeBoardRoute.
    destruct u; [done|]. cbn [truthy negb]. cbv zeta. rewrite Hv. simpl.
    destruct (private_board_threw api toLowerCase browser taskId true fuel _ r s0 s1
                Hv' Hl Ho Hg Hp) as [r' ->].
    reflexivity.
Qed.

End Route.

(** X27 on the served world after its task has expired. *)
Lemma download_status_codes_witness :
  (serveDownload 6000 (lit "3f2b8c1e") servedWorld).1
  = {| code := 410; body := ErrorBody (lit "Download has expired") |}.
Proof.
  destruct (download_status_codes 6000 (lit "3f2b8c1e") servedWorld) as (_ & H & _).
  apply (H expiringTask); vm_compute; reflexivity.
Defined.

(** X29 on a record of three images out of four. *)
Lemma progress_route_witness :
  let r := Scraper.updateProgress (lit "t")
             (mkUpdate (Some 3%nat) (Some 4%nat) (Some Scrolling) None) emptyRegistry in
  ∃ resp, getProgress (lit "t") r freshWorld
          = {| code := 200; body := ScrapeProgressBody resp |}
          ∧ 0 <= p_progress resp <= 100.
Proof.
  intros r. destruct (progress_route (lit "t") r freshWorld) as [H _].
  destruct (H (mkScrapingProgress 3 4 Scrolling Scraper.MsgNone)) as (resp & Hr & Hp & _).
  - vm_compute. reflexivity.
  - simpl. lia.
  - by exists resp.
Defined.

(** X30 on a board that asks to log in. *)
Lemma scrape_route_refusals_witness :
  (scrapeBoardRoute sampleUrlApi asciiLower (sampleBrowser (lit "<p>Login to view</p>"))
     (lit "t") 60 (Some sampleUrl) emptyRegistry).1
  = {| code := 403; body := ErrorBody (lit "This board is private or requires login") |}.
Proof.
  destruct (scrape_route_refusals sampleUrlApi asciiLower
              (sampleBrowser (lit "<p>Login to view</p>")) (lit "t") 60 (Some sampleUrl)
              emptyRegistry) as (_ & _ & H).
  apply (H sampleUrl tt tt); first [reflexivity | discriminate].
Defined.

End ControllerFacts.
